(** * Live order change detection and notifications of the admin dashboard

    A shallow embedding of the order-polling components
    ([src/components/OrderManagement.tsx], in its two revisions: the one
    built around [fetchOrders] and the one built around [loadOrders]) and of
    the notification inbox ([NotificationHistory]).

    React state hooks and the [useRef] cell are fields of one [State]
    record; the Firestore collections the component reads and writes are
    fields of the same record or inputs of a poll cycle; [setTimeout]
    callbacks are entries of a pending-timer list that fire when the clock
    passes their due time.

    A poll cycle is one step, taken when its [getDocs] returns: everything
    from there to the end of the function runs without an [await] in
    [loadOrders], so cycles do not interleave; the cycles of [fetchOrders]
    are taken one at a time as well.  Calls that are not awaited
    ([saveNotification], [fetchStoreName]) take effect within the step, with
    the captured [storeNames] deciding what is looked up.  In [fetchOrders]
    the callbacks of [forEach] are asynchronous: one that reaches an [await]
    before its membership test is suspended and resumes at the end of the
    step, after the snapshot has been replaced. *)

From Stdlib Require Import ZArith Lia.
From stdpp Require Import base option list sorting gmap sets strings pretty.

Open Scope Z_scope.

#[local] Set Warnings "-clear-no-such-hyp".

(** ** Data model *)

(** [type] of a persisted notification. *)
Inductive NotificationType := new_order | status_update | payment_update.

#[global] Instance NotificationType_eq_dec : EqDecision NotificationType.
Proof. solve_decision. Defined.

(** The fields of [Order] (types/index.ts) that the engine reads.  Amounts
    are JavaScript numbers that are only copied and printed, never computed
    with; they are whole numbers here, below 10^21 in size, which a template
    literal prints in plain decimal.  Fractional and larger amounts are
    outside the model. *)
Module Order.
Record t := mk {
  id : string;
  orderNumber : string;
  customerName : string;
  totalAmount : Z;
  storeId : string;
  status : string;
  paymentStatus : string
}.
End Order.

(** The document written by [saveNotification]; the document id is the key
    of the collection, [createdAt] is the instant that
    [new Date().toISOString()] denotes, in milliseconds. *)
Module Notification.
Record t := mk {
  orderId : string;
  orderNumber : string;
  customerName : string;
  totalAmount : Z;
  type : NotificationType;
  message : string;
  read : bool;
  createdAt : Z
}.
End Notification.

(** Callbacks handed to [setTimeout]: the [loadOrders] revision clears the
    whole highlight set, the [fetchOrders] revision deletes one id. *)
Inductive Timeout :=
  | ClearNewOrderIds
  | DeleteNewOrderId (id : string).

(** Outcome of [getDoc(doc(db, 'stores', storeId))]. *)
Inductive StoreLookup :=
  | StoreFound (name : string)
  | StoreMissing
  | StoreError.

(** What the outside world answers during one poll cycle. *)
Record PollEnv := mkEnv {
  getDocs_orders : option (list Order.t); (* [None]: getDocs throws *)
  getDoc_store : string → StoreLookup;
  addDoc_ok : Notification.t → bool;      (* does the write of this record succeed *)
  addDoc_delay : Notification.t → Z       (* how long the write takes *)
}.

Record State := mkState {
  (* React state and the ref cell *)
  orders : list Order.t;
  loading : bool;
  newOrderIds : gset string;
  storeNames : gmap string string;
  previousOrdersRef : gset string;
  (* the 'notifications' collection and the traffic to Firestore *)
  notifications : gmap string Notification.t;
  addDoc_log : list Notification.t;
  getDoc_log : list string;
  updateDoc_log : list (string * string * string);
  (* clock (ms), pending setTimeout callbacks, due time of the setInterval *)
  now : Z;
  timeouts : list (Z * Timeout);
  intervalDue : option Z
}.

Definition set_orders (v : list Order.t) (s : State) : State :=
  mkState v (loading s) (newOrderIds s) (storeNames s) (previousOrdersRef s)
    (notifications s) (addDoc_log s) (getDoc_log s) (updateDoc_log s)
    (now s) (timeouts s) (intervalDue s).
Definition setLoading (v : bool) (s : State) : State :=
  mkState (orders s) v (newOrderIds s) (storeNames s) (previousOrdersRef s)
    (notifications s) (addDoc_log s) (getDoc_log s) (updateDoc_log s)
    (now s) (timeouts s) (intervalDue s).
Definition setNewOrderIds (v : gset string) (s : State) : State :=
  mkState (orders s) (loading s) v (storeNames s) (previousOrdersRef s)
    (notifications s) (addDoc_log s) (getDoc_log s) (updateDoc_log s)
    (now s) (timeouts s) (intervalDue s).
Definition setStoreNames (v : gmap string string) (s : State) : State :=
  mkState (orders s) (loading s) (newOrderIds s) v (previousOrdersRef s)
    (notifications s) (addDoc_log s) (getDoc_log s) (updateDoc_log s)
    (now s) (timeouts s) (intervalDue s).
Definition set_previousOrdersRef (v : gset string) (s : State) : State :=
  mkState (orders s) (loading s) (newOrderIds s) (storeNames s) v
    (notifications s) (addDoc_log s) (getDoc_log s) (updateDoc_log s)
    (now s) (timeouts s) (intervalDue s).
Definition set_notifications (v : gmap string Notification.t) (s : State) : State :=
  mkState (orders s) (loading s) (newOrderIds s) (storeNames s) (previousOrdersRef s)
    v (addDoc_log s) (getDoc_log s) (updateDoc_log s)
    (now s) (timeouts s) (intervalDue s).
Definition set_addDoc_log (v : list Notification.t) (s : State) : State :=
  mkState (orders s) (loading s) (newOrderIds s) (storeNames s) (previousOrdersRef s)
    (notifications s) v (getDoc_log s) (updateDoc_log s)
    (now s) (timeouts s) (intervalDue s).
Definition set_getDoc_log (v : list string) (s : State) : State :=
  mkState (orders s) (loading s) (newOrderIds s) (storeNames s) (previousOrdersRef s)
    (notifications s) (addDoc_log s) v (updateDoc_log s)
    (now s) (timeouts s) (intervalDue s).
Definition set_updateDoc_log (v : list (string * string * string)) (s : State) : State :=
  mkState (orders s) (loading s) (newOrderIds s) (storeNames s) (previousOrdersRef s)
    (notifications s) (addDoc_log s) (getDoc_log s) v
    (now s) (timeouts s) (intervalDue s).
Definition set_now (v : Z) (s : State) : State :=
  mkState (orders s) (loading s) (newOrderIds s) (storeNames s) (previousOrdersRef s)
    (notifications s) (addDoc_log s) (getDoc_log s) (updateDoc_log s)
    v (timeouts s) (intervalDue s).
Definition set_timeouts (v : list (Z * Timeout)) (s : State) : State :=
  mkState (orders s) (loading s) (newOrderIds s) (storeNames s) (previousOrdersRef s)
    (notifications s) (addDoc_log s) (getDoc_log s) (updateDoc_log s)
    (now s) v (intervalDue s).
Definition set_intervalDue (v : option Z) (s : State) : State :=
  mkState (orders s) (loading s) (newOrderIds s) (storeNames s) (previousOrdersRef s)
    (notifications s) (addDoc_log s) (getDoc_log s) (updateDoc_log s)
    (now s) (timeouts s) v.

(** The component as mounted at instant [t0] over an existing
    'notifications' collection. *)
Definition initial (coll : gmap string Notification.t) (t0 : Z) : State :=
  mkState [] true ∅ ∅ ∅ coll [] [] [] t0 [] None.

(** ** Firestore writes and reads *)

(** [addDoc(collection(db, 'notifications'), n)]: a new document under an
    id that Firestore generates, distinct from every id in use. *)
Definition addDoc (n : Notification.t) (coll : gmap string Notification.t)
    : gmap string Notification.t :=
  <[fresh (dom coll) := n]> coll.

(** The record that [saveNotification] builds at instant [at_]. *)
Definition notificationOf (order : Order.t) (ty : NotificationType) (msg : string)
    (at_ : Z) : Notification.t :=
  Notification.mk (Order.id order) (Order.orderNumber order)
    (Order.customerName order) (Order.totalAmount order) ty msg false at_.

(** [saveNotification(order, type, message)].  A failing [addDoc] is caught
    and logged only. *)
Definition saveNotification (env : PollEnv) (order : Order.t) (ty : NotificationType)
    (msg : string) (s : State) : State :=
  let n := notificationOf order ty msg (now s) in
  let s := set_addDoc_log (addDoc_log s ++ [n]) s in
  if addDoc_ok env n then set_notifications (addDoc n (notifications s)) s else s.

(** [fetchStoreName(storeId)]: one [getDoc]; the name is stored under the
    id when the document exists, and [null] is returned otherwise. *)
Definition fetchStoreName (look : string → StoreLookup) (storeId : string)
    (s : State) : option string * State :=
  let s := set_getDoc_log (getDoc_log s ++ [storeId]) s in
  match look storeId with
  | StoreFound storeName =>
      (Some storeName, setStoreNames (<[storeId := storeName]> (storeNames s)) s)
  | StoreMissing | StoreError => (None, s)
  end.

(** JavaScript truthiness of a string, such as [order.storeId]: the empty
    string is falsy. *)
Definition truthy (x : string) : bool := bool_decide (x ≠ "").

(** [storeNames] is a plain object: besides the names that [setStoreNames]
    has stored under a store id, it answers for the property names that
    every object inherits from [Object.prototype] (ECMAScript 2023, 20.1.3
    and B.2.2, as browsers implement them).  An own entry shadows an
    inherited one. *)
Definition inheritedKeys : list string :=
  ["constructor"; "hasOwnProperty"; "isPrototypeOf"; "propertyIsEnumerable";
   "toLocaleString"; "toString"; "valueOf"; "__proto__";
   "__defineGetter__"; "__defineSetter__"; "__lookupGetter__"; "__lookupSetter__"].

Definition inherited (key : string) : bool := bool_decide (key ∈ inheritedKeys).

(** What [storeNames[key]] evaluates to: a stored name, a function or
    object of the prototype, or [undefined]. *)
Inductive Property :=
  | Own (storeName : string)
  | Inherited
  | Undefined.

Definition getProperty (names : gmap string string) (key : string) : Property :=
  match names !! key with
  | Some storeName => Own storeName
  | None => if inherited key then Inherited else Undefined
  end.

(** Truthiness of [storeNames[storeId]]: functions and objects are truthy,
    [undefined] and the empty string are falsy. *)
Definition hasStoreName (names : gmap string string) (storeId : string) : bool :=
  match getProperty names storeId with
  | Own storeName => truthy storeName
  | Inherited => true
  | Undefined => false
  end.

(** ** Clock and timers *)

Definition runTimeout (cb : Timeout) (s : State) : State :=
  match cb with
  | ClearNewOrderIds => setNewOrderIds ∅ s
  | DeleteNewOrderId id => setNewOrderIds (newOrderIds s ∖ {[id]}) s
  end.

(** [setTimeout(cb, delay)] called at instant [at_]. *)
Definition setTimeout (cb : Timeout) (at_ delay : Z) (s : State) : State :=
  set_timeouts (timeouts s ++ [(at_ + delay, cb)]) s.

Definition dueBy (t : Z) (p : Z * Timeout) : Prop := p.1 ≤ t.
Definition earlier (p q : Z * Timeout) : Prop := p.1 ≤ q.1.

#[global] Instance dueBy_dec t p : Decision (dueBy t p).
Proof. unfold dueBy. apply _. Defined.
#[global] Instance earlier_dec p q : Decision (earlier p q).
Proof. unfold earlier. apply _. Defined.

Definition fire (cbs : list (Z * Timeout)) (s : State) : State :=
  foldl (λ s p, runTimeout p.2 s) s cbs.

(** Time passes until instant [t]: the callbacks due by then run, earliest
    first, and leave the pending list. *)
Definition elapse (t : Z) (s : State) : State :=
  let due := merge_sort earlier (filter (dueBy t) (timeouts s)) in
  let rest := filter (λ p, ¬ dueBy t p) (timeouts s) in
  set_now (Z.max (now s) t) (set_timeouts rest (fire due s)).

(** [newOrderIds.has(id)] as a render at instant [t] sees it. *)
Definition isFresh (t : Z) (id : string) (s : State) : bool :=
  bool_decide (id ∈ newOrderIds (elapse t s)).

(** ** The [loadOrders] revision *)

(** [`New order #${order.orderNumber} received`] *)
Definition newOrderMessage (order : Order.t) : string :=
  "New order #" +:+ Order.orderNumber order +:+ " received".

(** Body of [ordersData.forEach] in [loadOrders]; [names] is the
    [storeNames] object the callback closed over.  [saveNotification] and
    [fetchStoreName] are not awaited. *)
Definition loadOrders_each (env : PollEnv) (names : gmap string string)
    (acc : gset string * State) (order : Order.t) : gset string * State :=
  let '(newIds, s) := acc in
  let '(newIds, s) :=
    if decide (Order.id order ∈ previousOrdersRef s) then (newIds, s)
    else
      (newIds ∪ {[Order.id order]},
       if decide (0 < size (previousOrdersRef s))%nat
       then saveNotification env order new_order (newOrderMessage order) s
       else s) in
  if truthy (Order.storeId order) && negb (hasStoreName names (Order.storeId order))
  then (newIds, (fetchStoreName (getDoc_store env) (Order.storeId order) s).2)
  else (newIds, s).

(** [loadOrders] as [useCallback] built it in a render whose [storeNames]
    was [names]: the guard of the lookups reads that object, whatever the
    state holds by the time [getDocs] returns. *)
Definition loadOrders_in (names : gmap string string) (env : PollEnv) (s : State)
    : State :=
  match getDocs_orders env with
  | None => setLoading false s
  | Some ordersData =>
      let currentOrderIds : gset string := list_to_set (Order.id <$> ordersData) in
      let '(newIds, s) := foldl (loadOrders_each env names) (∅, s) ordersData in
      let s :=
        if decide (0 < size newIds)%nat
        then setTimeout ClearNewOrderIds (now s) 5000 (setNewOrderIds newIds s)
        else s in
      setLoading false (set_orders ordersData (set_previousOrdersRef currentOrderIds s))
  end.

(** The callback of the latest render. *)
Definition loadOrders (env : PollEnv) (s : State) : State :=
  loadOrders_in (storeNames s) env s.

(** [handleStatusUpdate] and [handlePaymentStatusUpdate]: the write to the
    order, then one notification for the order as listed, then a reload. *)
Definition handleStatusUpdate (updateDoc_ok : bool) (env : PollEnv)
    (orderId newStatus : string) (s : State) : State :=
  if updateDoc_ok then
    let s := set_updateDoc_log (updateDoc_log s ++ [(orderId, "status", newStatus)]) s in
    let s :=
      match find (λ o, bool_decide (Order.id o = orderId)) (orders s) with
      | Some updatedOrder =>
          saveNotification env updatedOrder status_update
            ("Order #" +:+ Order.orderNumber updatedOrder
               +:+ " status updated to " +:+ newStatus) s
      | None => s
      end in
    loadOrders env s
  else s.

Definition handlePaymentStatusUpdate (updateDoc_ok : bool) (env : PollEnv)
    (orderId newPaymentStatus : string) (s : State) : State :=
  if updateDoc_ok then
    let s := set_updateDoc_log
               (updateDoc_log s ++ [(orderId, "paymentStatus", newPaymentStatus)]) s in
    let s :=
      match find (λ o, bool_decide (Order.id o = orderId)) (orders s) with
      | Some updatedOrder =>
          saveNotification env updatedOrder payment_update
            ("Order #" +:+ Order.orderNumber updatedOrder
               +:+ " payment status updated to " +:+ newPaymentStatus) s
      | None => s
      end in
    loadOrders env s
  else s.

(** ** The [fetchOrders] revision *)

(** [new Set(ordersData.map(order => order.storeId))], in the order a
    JavaScript [Set] iterates: first occurrences. *)
Definition uniqueStoreIds (ordersData : list Order.t) : list string :=
  foldl (λ seen x, if decide (x ∈ seen) then seen else seen ++ [x])
    [] (Order.storeId <$> ordersData).

(** Body of the loop over [uniqueStoreIds]:
    [if (storeId && !storeNames[storeId]) await fetchStoreName(storeId)]. *)
Definition lookupIfMissing (env : PollEnv) (names : gmap string string)
    (s : State) (storeId : string) : State :=
  if truthy storeId && negb (hasStoreName names storeId)
  then (fetchStoreName (getDoc_store env) storeId s).2 else s.

(** The part of the [docChanges().forEach] callback that follows the
    optional [await fetchStoreName]: the membership test, the highlight,
    the awaited write, and only then the timer.  The entry added to
    [timeouts] stands for the callback that deletes the id 5 s after the
    write has settled; [setTimeout] itself is called when the write settles,
    [addDoc_delay] after the cycle, and a write that never settles is
    outside the model. *)
Definition fetchOrders_added (env : PollEnv) (order : Order.t) (s : State) : State :=
  if decide (Order.id order ∈ previousOrdersRef s) then s
  else
    let msg := "New order received from " +:+ Order.customerName order
                 +:+ " - ₹" +:+ pretty (Order.totalAmount order) in
    let n := notificationOf order new_order msg (now s) in
    let s := setNewOrderIds (newOrderIds s ∪ {[Order.id order]}) s in
    let s := saveNotification env order new_order msg s in
    setTimeout (DeleteNewOrderId (Order.id order))
      (now s + Z.max 0 (addDoc_delay env n)) 5000 s.

(** One call of the asynchronous callback.  [getDocs] hands every document
    of a one-shot query to [docChanges()] as ['added'].  A callback that
    reaches [await fetchStoreName] issues the lookup and is suspended: the
    rest of it runs after [fetchOrders] has gone on. *)
Definition fetchOrders_change (env : PollEnv) (names : gmap string string)
    (acc : State * list Order.t) (order : Order.t) : State * list Order.t :=
  let '(s, suspended) := acc in
  if truthy (Order.storeId order) && negb (hasStoreName names (Order.storeId order))
  then ((fetchStoreName (getDoc_store env) (Order.storeId order) s).2,
        suspended ++ [order])
  else (fetchOrders_added env order s, suspended).

(** [fetchOrders] as [useCallback] built it in a render whose [loading] and
    [storeNames] were [loading_] and [names]. *)
Definition fetchOrders_in (loading_ : bool) (names : gmap string string)
    (env : PollEnv) (s : State) : State :=
  match getDocs_orders env with
  | None => setLoading false s
  | Some ordersData =>
      let s := foldl (lookupIfMissing env names) s (uniqueStoreIds ordersData) in
      let '(s, suspended) :=
        if loading_ then (s, [])
        else foldl (fetchOrders_change env names) (s, []) ordersData in
      let s := set_previousOrdersRef (list_to_set (Order.id <$> ordersData)) s in
      let s := setLoading false (set_orders ordersData s) in
      foldl (λ s order, fetchOrders_added env order s) s suspended
  end.

(** The callback of the latest render. *)
Definition fetchOrders (env : PollEnv) (s : State) : State :=
  fetchOrders_in (loading s) (storeNames s) env s.

(** [updateDeliveryStatus] and [updatePaymentStatus]: the write to the
    order and nothing else. *)
Definition updateDeliveryStatus (updateDoc_ok : bool) (orderId newStatus : string)
    (s : State) : State :=
  if updateDoc_ok
  then set_updateDoc_log (updateDoc_log s ++ [(orderId, "status", newStatus)]) s
  else s.

Definition updatePaymentStatus (updateDoc_ok : bool) (orderId newPaymentStatus : string)
    (s : State) : State :=
  if updateDoc_ok
  then set_updateDoc_log
         (updateDoc_log s ++ [(orderId, "paymentStatus", newPaymentStatus)]) s
  else s.

(** ** The component over time *)

(** What can happen to a mounted component: time passes; the [useEffect]
    body runs (on mount and whenever the polling callback is rebuilt),
    polling at once and starting a new interval; the interval fires; the
    admin changes a status or a payment status; in the [fetchOrders]
    revision, the admin presses Refresh. *)
Inductive Event :=
  | Elapse (dt : Z)
  | Effect (env : PollEnv)
  | Interval (env : PollEnv)
  | Refresh (env : PollEnv)
  | SetStatus (updateDoc_ok : bool) (env : PollEnv) (orderId newStatus : string)
  | SetPayment (updateDoc_ok : bool) (env : PollEnv) (orderId newPaymentStatus : string).

(** The interval callback runs at the due time of the interval, which then
    comes due one period later.  A cycle is one instant here: callbacks of
    [setTimeout] that are due by the tick run before the poll of the tick.
    In the browser the answer of [getDocs] can also arrive before a
    callback that is due at the very instant of the tick. *)
Definition onInterval (period : Z) (poll : State → State) (s : State) : State :=
  poll match intervalDue s with
       | Some due => set_intervalDue (Some (due + period)) (elapse due s)
       | None => s
       end.

(** The [loadOrders] revision: 5 s period; it has no Refresh button, the
    event does not occur there.  A cycle runs the callback of the latest
    render and is over in one instant; the runs of the effect that React
    starts after a render that rebuilt the callback are [Effect] events of
    their own (see [reactLoad]). *)
Definition stepLoad (e : Event) (s : State) : State :=
  match e with
  | Elapse dt => elapse (now s + Z.max 0 dt) s
  | Effect env => loadOrders env (set_intervalDue (Some (now s + 5000)) s)
  | Interval env => onInterval 5000 (loadOrders env) s
  | Refresh _ => s
  | SetStatus ok env orderId newStatus => handleStatusUpdate ok env orderId newStatus s
  | SetPayment ok env orderId v => handlePaymentStatusUpdate ok env orderId v s
  end.

(** The [fetchOrders] revision: 60 s period.  As for [stepLoad], the runs of
    the effect that follow a change of [loading] or [storeNames] are
    [Effect] events of their own (see [reactFetch]). *)
Definition stepFetch (e : Event) (s : State) : State :=
  match e with
  | Elapse dt => elapse (now s + Z.max 0 dt) s
  | Effect env => fetchOrders env (set_intervalDue (Some (now s + 60000)) s)
  | Interval env => onInterval 60000 (fetchOrders env) s
  | Refresh env => fetchOrders env s
  | SetStatus ok _ orderId newStatus => updateDeliveryStatus ok orderId newStatus s
  | SetPayment ok _ orderId v => updatePaymentStatus ok orderId v s
  end.

Definition runLoad (evs : list Event) (s : State) : State := foldl (flip stepLoad) s evs.
Definition runFetch (evs : list Event) (s : State) : State := foldl (flip stepFetch) s evs.

(** ** The notification inbox ([NotificationHistory]) *)

Definition recent (a b : string * Notification.t) : Prop :=
  Notification.createdAt b.2 ≤ Notification.createdAt a.2.

#[global] Instance recent_dec a b : Decision (recent a b).
Proof. unfold recent. apply _. Defined.

(** [query(collection(db, 'notifications'), orderBy('createdAt', 'desc'),
    limit(50))]: what the snapshot listener stores in [notifications]. *)
Definition listNotifications (coll : gmap string Notification.t)
    : list (string * Notification.t) :=
  take 50 (merge_sort recent (map_to_list coll)).

Definition unread (n : string * Notification.t) : Prop := Notification.read n.2 = false.

#[global] Instance unread_dec n : Decision (unread n).
Proof. unfold unread. apply _. Defined.

(** Records created strictly after [n]. *)
Definition laterThan (n : Notification.t) (kv : string * Notification.t) : Prop :=
  Notification.createdAt n < Notification.createdAt kv.2.

#[global] Instance laterThan_dec n kv : Decision (laterThan n kv).
Proof. unfold laterThan. apply _. Defined.

(** [notifications.filter(n => !n.read).length] *)
Definition unreadCount (notifications : list (string * Notification.t)) : nat :=
  length (filter unread notifications).

Definition setRead (n : Notification.t) : Notification.t :=
  Notification.mk (Notification.orderId n) (Notification.orderNumber n)
    (Notification.customerName n) (Notification.totalAmount n)
    (Notification.type n) (Notification.message n) true (Notification.createdAt n).

(** [updateDoc(doc(db, 'notifications', id), { read: true })]; Firestore
    rejects the update of a document that does not exist. *)
Definition updateDoc_read (id : string) (coll : gmap string Notification.t)
    : option (gmap string Notification.t) :=
  match coll !! id with
  | Some n => Some (<[id := setRead n]> coll)
  | None => None
  end.

(** [markAsRead(notificationId)]: a failed update is caught and logged. *)
Definition markAsRead (ok : bool) (notificationId : string)
    (coll : gmap string Notification.t) : gmap string Notification.t :=
  if ok then default coll (updateDoc_read notificationId coll) else coll.

(** [handleNotificationClick(notification)], as far as the collection goes;
    the navigation callbacks follow. *)
Definition handleNotificationClick (ok : bool) (notification : string * Notification.t)
    (coll : gmap string Notification.t) : gmap string Notification.t :=
  if Notification.read notification.2 then coll
  else markAsRead ok notification.1 coll.

(** Every write to the 'notifications' collection that the repository
    performs: the emitter's [addDoc] and the inbox's [markAsRead]. *)
Inductive Write :=
  | WAdd (n : Notification.t)
  | WMarkRead (ok : bool) (id : string).

Definition write (w : Write) (coll : gmap string Notification.t)
    : gmap string Notification.t :=
  match w with
  | WAdd n => addDoc n coll
  | WMarkRead ok id => markAsRead ok id coll
  end.

(** ** Counting persisted notifications *)

Definition refers (ty : NotificationType) (O : string) (kv : string * Notification.t)
    : Prop :=
  Notification.type kv.2 = ty ∧ Notification.orderId kv.2 = O.

#[global] Instance refers_dec ty O kv : Decision (refers ty O kv).
Proof. unfold refers. apply _. Defined.

Definition persisted (ty : NotificationType) (O : string)
    (coll : gmap string Notification.t) : nat :=
  size (filter (refers ty O) coll).

(** ** Poll cycles of a run *)

Definition ids (ordersData : list Order.t) : gset string :=
  list_to_set (Order.id <$> ordersData).

(** The poll that an event of the [loadOrders] revision performs. *)
Definition polledBy (e : Event) : option PollEnv :=
  match e with
  | Effect env | Interval env => Some env
  | SetStatus true env _ _ | SetPayment true env _ _ => Some env
  | _ => None
  end.

Definition fetchedBy (e : Event) : option (list Order.t) :=
  polledBy e ≫= getDocs_orders.

(** The successive successful fetches of a run. *)
Definition snapshots (evs : list Event) : list (list Order.t) := omap fetchedBy evs.

(** The same for the [fetchOrders] revision, whose handlers do not poll and
    whose Refresh button does. *)
Definition polledByFetch (e : Event) : option PollEnv :=
  match e with
  | Effect env | Interval env | Refresh env => Some env
  | _ => None
  end.

Definition snapshotsFetch (evs : list Event) : list (list Order.t) :=
  omap (λ e, polledByFetch e ≫= getDocs_orders) evs.

(** How often [O] is fetched while absent from the fetch before
    ([prev] stands for the fetch before the first one). *)
Fixpoint appearances (O : string) (prev : gset string) (Ls : list (list Order.t)) : nat :=
  match Ls with
  | [] => 0
  | L :: Ls =>
      ((if decide (O ∈ ids L ∧ O ∉ prev) then 1 else 0) + appearances O (ids L) Ls)%nat
  end.

(** The same, counting only appearances that follow a non-empty fetch. *)
Fixpoint laterAppearances (O : string) (prev : gset string) (Ls : list (list Order.t))
    : nat :=
  match Ls with
  | [] => 0
  | L :: Ls =>
      ((if decide (O ∈ ids L ∧ (O ∉ prev) ∧ prev ≠ ∅) then 1 else 0)
       + laterAppearances O (ids L) Ls)%nat
  end.

Definition writesSucceed (e : Event) : Prop :=
  match polledBy e with
  | Some env => ∀ n, addDoc_ok env n = true
  | None => True
  end.

(** The ids a poll of [loadOrders] in state [s] collects in [newIds]. *)
Definition newIdsOf (env : PollEnv) (s : State) : gset string :=
  match getDocs_orders env with
  | Some ordersData => ids ordersData ∖ previousOrdersRef s
  | None => ∅
  end.



(** ** Notions used in the statements *)

(** How many orders of a fetch carry the id [O]; Firestore lists every
    document once, so this is 0 or 1. *)
Definition listed (O : string) (ordersData : list Order.t) : nat :=
  length (filter (λ o, Order.id o = O) ordersData).

(** The records that one cycle of [loadOrders] hands to [addDoc]: one
    [new_order] record for every fetched order that the previous snapshot
    lacks, and none at all while that snapshot is empty. *)
Definition newOrderRecords (at_ : Z) (prev : gset string) (ordersData : list Order.t)
    : list Notification.t :=
  if decide (0 < size prev)%nat
  then (λ o, notificationOf o new_order (newOrderMessage o) at_)
         <$> filter (λ o, Order.id o ∉ prev) ordersData
  else [].

Definition addDocs (env : PollEnv) (ns : list Notification.t)
    (coll : gmap string Notification.t) : gmap string Notification.t :=
  foldl (λ c n, addDoc n c) coll (filter (λ n, addDoc_ok env n = true) ns).

(** The store lookups that a cycle of [loadOrders] issues: one for every
    fetched order whose store has no name in the captured [storeNames]. *)
Definition lookupsOf (names : gmap string string) (ordersData : list Order.t)
    : list string :=
  Order.storeId
    <$> filter (λ o, truthy (Order.storeId o)
                     && negb (hasStoreName names (Order.storeId o)) = true) ordersData.

(** The state in which the poll of an event runs, or the state the event
    leaves when it performs none. *)
Definition prePoll (e : Event) (s : State) : State :=
  match e with
  | Elapse dt => elapse (now s + Z.max 0 dt) s
  | Effect _ => set_intervalDue (Some (now s + 5000)) s
  | Interval _ =>
      match intervalDue s with
      | Some due => set_intervalDue (Some (due + 5000)) (elapse due s)
      | None => s
      end
  | Refresh _ => s
  | SetStatus true env orderId newStatus =>
      let s := set_updateDoc_log (updateDoc_log s ++ [(orderId, "status", newStatus)]) s in
      match find (λ o, bool_decide (Order.id o = orderId)) (orders s) with
      | Some updatedOrder =>
          saveNotification env updatedOrder status_update
            ("Order #" +:+ Order.orderNumber updatedOrder
               +:+ " status updated to " +:+ newStatus) s
      | None => s
      end
  | SetPayment true env orderId v =>
      let s := set_updateDoc_log (updateDoc_log s ++ [(orderId, "paymentStatus", v)]) s in
      match find (λ o, bool_decide (Order.id o = orderId)) (orders s) with
      | Some updatedOrder =>
          saveNotification env updatedOrder payment_update
            ("Order #" +:+ Order.orderNumber updatedOrder
               +:+ " payment status updated to " +:+ v) s
      | None => s
      end
  | SetStatus false _ _ _ | SetPayment false _ _ _ => s
  end.

(** The state in which the poll of an event of the [fetchOrders] revision
    runs, or the state the event leaves when it performs none. *)
Definition prePollFetch (e : Event) (s : State) : State :=
  match e with
  | Elapse dt => elapse (now s + Z.max 0 dt) s
  | Effect _ => set_intervalDue (Some (now s + 60000)) s
  | Interval _ =>
      match intervalDue s with
      | Some due => set_intervalDue (Some (due + 60000)) (elapse due s)
      | None => s
      end
  | Refresh _ => s
  | SetStatus ok _ orderId newStatus => updateDeliveryStatus ok orderId newStatus s
  | SetPayment ok _ orderId v => updatePaymentStatus ok orderId v s
  end.



(** From [s] to [s'] the collection gained [new_order] records at most. *)
Definition onlyNewOrders (s s' : State) : Prop :=
  ∀ ty O, ty ≠ new_order →
    persisted ty O (notifications s') = persisted ty O (notifications s).

(** ** Sample data *)

Definition orderA : Order.t := Order.mk "A" "1001" "Asha" 250 "s1" "pending" "pending".
Definition orderB : Order.t := Order.mk "B" "1002" "Bala" 120 "s1" "pending" "pending".
Definition orderC : Order.t := Order.mk "C" "1003" "Chitra" 75 "" "pending" "pending".

(** A cooperative world: the fetch returns [ordersData], every store is
    called "Fresh Mart", every write succeeds at once. *)
Definition fetching (ordersData : list Order.t) : PollEnv :=
  mkEnv (Some ordersData) (λ _, StoreFound "Fresh Mart") (λ _, true) (λ _, 0).

(** The same world with writes that take 300 ms. *)
Definition fetchingSlowly (ordersData : list Order.t) : PollEnv :=
  mkEnv (Some ordersData) (λ _, StoreFound "Fresh Mart") (λ _, true) (λ _, 300).

(** A world whose fetch fails. *)
Definition failing : PollEnv :=
  mkEnv None (λ _, StoreError) (λ _, true) (λ _, 0).

(** Order A is there at mount; order B arrives before the first tick. *)
Definition secondFetchAddsB : list Event :=
  [Effect (fetching [orderA]); Interval (fetching [orderA; orderB])].

(** The collection is empty at mount; order A arrives before the first tick. *)
Definition emptyThenA : list Event :=
  [Effect (fetching []); Interval (fetching [orderA])].

(** The same with an order that names no store. *)
Definition emptyThenC : list Event :=
  [Effect (fetching []); Interval (fetching [orderC])].

(** The admin changes the status of order A; the handler of the
    [loadOrders] revision reloads the orders. *)
Definition confirmA (env : PollEnv) : Event := SetStatus true env "A" "confirmed".

(** Three polls one second apart, each finding one more order. *)
Definition threeBatches (poll : PollEnv → Event) : list Event :=
  [Effect (fetching [orderA]); Elapse 1000;
   poll (fetching [orderA; orderB]); Elapse 1000;
   poll (fetching [orderA; orderB; orderC])].



(** Either revision after its first poll has listed order A. *)
Definition listingA_load : State := stepLoad (Effect (fetching [orderA])) (initial ∅ 0).
Definition listingA_fetch : State := stepFetch (Effect (fetching [orderA])) (initial ∅ 0).

(** A collection of 51 unread notifications created one millisecond apart;
    Firestore's ids are "0" to "50" here, "0" being the oldest record. *)
Definition backlogRecord (i : nat) : Notification.t :=
  notificationOf orderA new_order (newOrderMessage orderA) (Z.of_nat i).

Definition backlog : gmap string Notification.t :=
  foldl (λ c i, addDoc (backlogRecord i) c) ∅ (seq 0 51).

(** ** Search and filters of the [loadOrders] revision *)

(** [s.includes(q)].  A string stands for its UTF-8 bytes; for well-formed
    strings a match of bytes is a match of code units. *)
Fixpoint includes (s q : string) : bool :=
  String.prefix q s
  || match s with
     | EmptyString => false
     | String _ s' => includes s' q
     end.

(** The search box and the two drop-downs. *)
Record Filters := mkFilters {
  searchQuery : string;
  showSuggestions : bool;
  orderStatusFilter : string;
  paymentStatusFilter : string
}.

Definition noFilters : Filters := mkFilters "" false "all" "all".

(** [storeNames[order.storeId]?.toLowerCase()] throws a TypeError when what
    the object answers is neither a string nor [undefined]: a function or
    object of the prototype has no [toLowerCase]. *)
Definition lookupThrows (names : gmap string string) (order : Order.t) : bool :=
  match getProperty names (Order.storeId order) with
  | Inherited => true
  | Own _ | Undefined => false
  end.

(** The value of the predicate of the search [filter] on an order for which
    the store-name lookup does not throw; [toLowerCase] is JavaScript's
    [String.prototype.toLowerCase], and a store without a name counts as
    the empty string. *)
Definition matchesSearch (toLowerCase : string → string) (names : gmap string string)
    (query : string) (order : Order.t) : bool :=
  let storeName := from_option toLowerCase "" (names !! Order.storeId order) in
  includes (toLowerCase (Order.orderNumber order)) query
  || includes (toLowerCase (Order.customerName order)) query
  || includes storeName query.

(** The filtering effect: the pair of [suggestions] and [filteredOrders] it
    sets when it runs to its end.  [trim] is JavaScript's
    [String.prototype.trim]; the query that is searched for is the
    lower-cased input, not the trimmed one. *)
Definition filterEffect (toLowerCase trim : string → string) (orders : list Order.t)
    (names : gmap string string) (f : Filters) : list Order.t * list Order.t :=
  let '(filtered, suggestions) :=
    if bool_decide (trim (searchQuery f) ≠ "") then
      let query := toLowerCase (searchQuery f) in
      let filtered := filter (λ o, matchesSearch toLowerCase names query o = true) orders in
      (filtered, take 5 filtered)
    else (orders, []) in
  let filtered :=
    if bool_decide (orderStatusFilter f ≠ "all")
    then filter (λ o, Order.status o = orderStatusFilter f) filtered else filtered in
  let filtered :=
    if bool_decide (paymentStatusFilter f ≠ "all")
    then filter (λ o, Order.paymentStatus o = paymentStatusFilter f) filtered
    else filtered in
  (suggestions, filtered).

(** The effect as it runs.  [Array.prototype.filter] calls the predicate on
    every loaded order, and the predicate evaluates the store name first:
    a search that is not blank throws as soon as one loaded order makes the
    lookup throw, before [setSuggestions] and [setFilteredOrders] are
    reached.  [None] stands for that TypeError. *)
Definition runFilterEffect (toLowerCase trim : string → string) (orders : list Order.t)
    (names : gmap string string) (f : Filters)
    : option (list Order.t * list Order.t) :=
  if bool_decide (trim (searchQuery f) ≠ "") && existsb (lookupThrows names) orders
  then None
  else Some (filterEffect toLowerCase trim orders names f).

Definition handleSearchChange (value : string) (f : Filters) : Filters :=
  mkFilters value true (orderStatusFilter f) (paymentStatusFilter f).

Definition handleSuggestionClick (order : Order.t) (f : Filters) : Filters :=
  mkFilters (Order.orderNumber order) false (orderStatusFilter f) (paymentStatusFilter f).

Definition clearSearch (f : Filters) : Filters :=
  mkFilters "" false (orderStatusFilter f) (paymentStatusFilter f).

Definition clearAllFilters (f : Filters) : Filters :=
  mkFilters "" (showSuggestions f) "all" "all".

Definition hasActiveFilters (f : Filters) : bool :=
  bool_decide (searchQuery f ≠ "")
  || bool_decide (orderStatusFilter f ≠ "all")
  || bool_decide (paymentStatusFilter f ≠ "all").

(** What the drop-downs let through. *)
Definition passesStatus (f : Filters) (o : Order.t) : Prop :=
  (orderStatusFilter f = "all" ∨ Order.status o = orderStatusFilter f)
  ∧ (paymentStatusFilter f = "all" ∨ Order.paymentStatus o = paymentStatusFilter f).

(** ** Relative dates of the inbox *)

(** [formatDate] of [NotificationHistory]: [date] is the instant that
    [new Date(dateString)] denotes and [now] that of [new Date()], in
    milliseconds; [localeDate] is what [toLocaleDateString] prints for the
    two.  [Math.floor] of a quotient is the division of [Z]. *)
Definition formatDate (localeDate : Z → Z → string) (date now : Z) : string :=
  let diffInMs := now - date in
  let diffInMinutes := diffInMs / 60000 in
  let diffInHours := diffInMinutes / 60 in
  let diffInDays := diffInHours / 24 in
  if decide (diffInMinutes < 1) then "Just now"
  else if decide (diffInMinutes < 60) then pretty diffInMinutes +:+ "m ago"
  else if decide (diffInHours < 24) then pretty diffInHours +:+ "h ago"
  else if decide (diffInDays < 7) then pretty diffInDays +:+ "d ago"
  else localeDate date now.

(** Sample primitives for ASCII text without capitals or blanks. *)
Definition asIs (s : string) : string := s.

Definition orderD : Order.t := Order.mk "D" "1004" "dev" 40 "s2" "confirmed" "paid".

(** ** The steps of a run, in basic moves *)

(** What the handlers and cycles are made of. *)
Inductive Move :=
  | MElapse (t : Z)
  | MSetInterval (due : option Z)
  | MLogUpdate (entry : string * string * string)
  | MSave (env : PollEnv) (order : Order.t) (ty : NotificationType) (msg : string)
  | MLoadOrders (env : PollEnv)
  | MFetchOrders (env : PollEnv).

Definition move (m : Move) (s : State) : State :=
  match m with
  | MElapse t => elapse t s
  | MSetInterval due => set_intervalDue due s
  | MLogUpdate entry => set_updateDoc_log (updateDoc_log s ++ [entry]) s
  | MSave env order ty msg => saveNotification env order ty msg s
  | MLoadOrders env => loadOrders env s
  | MFetchOrders env => fetchOrders env s
  end.

Definition moves (ms : list Move) (s : State) : State := foldl (flip move) s ms.

Definition tickMoves (period : Z) (s : State) : list Move :=
  match intervalDue s with
  | Some due => [MElapse due; MSetInterval (Some (due + period))]
  | None => []
  end.

Definition saveMoves (env : PollEnv) (orderId : string) (ty : NotificationType)
    (text : Order.t → string) (s : State) : list Move :=
  match find (λ o, bool_decide (Order.id o = orderId)) (orders s) with
  | Some updatedOrder => [MSave env updatedOrder ty (text updatedOrder)]
  | None => []
  end.

(** The moves of an event of the [loadOrders] revision. *)
Definition movesLoad (e : Event) (s : State) : list Move :=
  match e with
  | Elapse dt => [MElapse (now s + Z.max 0 dt)]
  | Effect env => [MSetInterval (Some (now s + 5000)); MLoadOrders env]
  | Interval env => tickMoves 5000 s ++ [MLoadOrders env]
  | Refresh _ => []
  | SetStatus true env orderId v =>
      MLogUpdate (orderId, "status", v)
      :: saveMoves env orderId status_update
           (λ o, "Order #" +:+ Order.orderNumber o +:+ " status updated to " +:+ v) s
      ++ [MLoadOrders env]
  | SetPayment true env orderId v =>
      MLogUpdate (orderId, "paymentStatus", v)
      :: saveMoves env orderId payment_update
           (λ o, "Order #" +:+ Order.orderNumber o
                   +:+ " payment status updated to " +:+ v) s
      ++ [MLoadOrders env]
  | SetStatus false _ _ _ | SetPayment false _ _ _ => []
  end.

(** The moves of an event of the [fetchOrders] revision. *)
Definition movesFetch (e : Event) (s : State) : list Move :=
  match e with
  | Elapse dt => [MElapse (now s + Z.max 0 dt)]
  | Effect env => [MSetInterval (Some (now s + 60000)); MFetchOrders env]
  | Interval env => tickMoves 60000 s ++ [MFetchOrders env]
  | Refresh env => [MFetchOrders env]
  | SetStatus true _ orderId v => [MLogUpdate (orderId, "status", v)]
  | SetPayment true _ orderId v => [MLogUpdate (orderId, "paymentStatus", v)]
  | SetStatus false _ _ _ | SetPayment false _ _ _ => []
  end.

(** ** One cycle of [fetchOrders], in closed form *)

(** [`New order received from ${order.customerName} - ₹${order.totalAmount}`] *)
Definition receivedMessage (order : Order.t) : string :=
  "New order received from " +:+ Order.customerName order
    +:+ " - ₹" +:+ pretty (Order.totalAmount order).

(** The callback for [order] reaches [await fetchStoreName]. *)
Definition awaitsStore (names : gmap string string) (order : Order.t) : Prop :=
  truthy (Order.storeId order) && negb (hasStoreName names (Order.storeId order)) = true.

#[global] Instance awaitsStore_dec names order : Decision (awaitsStore names order).
Proof. unfold awaitsStore. apply _. Defined.

(** The fetched orders that a cycle of [fetchOrders] treats as new: absent
    from the snapshot, and not held up by a store lookup. *)
Definition treatedAsNew (names : gmap string string) (prev : gset string)
    (order : Order.t) : Prop :=
  ¬ awaitsStore names order ∧ Order.id order ∉ prev.

#[global] Instance treatedAsNew_dec names prev order :
  Decision (treatedAsNew names prev order).
Proof. unfold treatedAsNew. apply _. Defined.

Definition receivedRecord (at_ : Z) (order : Order.t) : Notification.t :=
  notificationOf order new_order (receivedMessage order) at_.

Definition badgeTimer (env : PollEnv) (at_ : Z) (order : Order.t) : Z * Timeout :=
  (at_ + Z.max 0 (addDoc_delay env (receivedRecord at_ order)) + 5000,
   DeleteNewOrderId (Order.id order)).

(** The moves that each revision is made of. *)
Definition loadMove (m : Move) : Prop :=
  match m with MFetchOrders _ => False | _ => True end.

Definition fetchMove (m : Move) : Prop :=
  match m with MLoadOrders _ | MSave _ _ _ _ => False | _ => True end.

(** From [s] to [s'] the orders of [marked] were highlighted, notified and
    given a timer, at the instant of [s], and nothing else of the engine
    changed. *)
Definition cycleEffect (env : PollEnv) (s s' : State) (marked : list Order.t) : Prop :=
  previousOrdersRef s' = previousOrdersRef s ∧ now s' = now s
  ∧ orders s' = orders s ∧ loading s' = loading s
  ∧ intervalDue s' = intervalDue s ∧ updateDoc_log s' = updateDoc_log s
  ∧ newOrderIds s' = newOrderIds s ∪ list_to_set (Order.id <$> marked)
  ∧ addDoc_log s' = addDoc_log s ++ (receivedRecord (now s) <$> marked)
  ∧ notifications s'
    = addDocs env (receivedRecord (now s) <$> marked) (notifications s)
  ∧ timeouts s' = timeouts s ++ (badgeTimer env (now s) <$> marked).

(** From [s] to [s'] documents were added to the collection, one at most
    for each record handed to [addDoc], and none was changed or removed. *)
Definition grows (s s' : State) : Prop :=
  notifications s ⊆ notifications s'
  ∧ ∃ l, addDoc_log s' = addDoc_log s ++ l
         ∧ (size (notifications s') ≤ size (notifications s) + length l)%nat.

(** The snapshot is the set of ids of the listed orders. *)
Definition snapshotOfOrders (s : State) : Prop :=
  previousOrdersRef s = ids (orders s).

Definition chronological (a b : Notification.t) : Prop :=
  Notification.createdAt a ≤ Notification.createdAt b.

(** The records handed to [addDoc] so far are unread, not stamped later than
    the clock, and in the order of their stamps. *)
Definition logInOrder (s : State) : Prop :=
  Forall (λ n, Notification.read n = false ∧ Notification.createdAt n ≤ now s)
    (addDoc_log s)
  ∧ StronglySorted chronological (addDoc_log s).

(** Every highlighted id has a pending callback that will remove it. *)
Definition highlightsExpire (s : State) : Prop :=
  ∀ id, id ∈ newOrderIds s →
    ∃ d cb, (d, cb) ∈ timeouts s ∧ (cb = ClearNewOrderIds ∨ cb = DeleteNewOrderId id).

(** No pending callback is due later than five seconds from now. *)
Definition dueWithinFive (s : State) : Prop :=
  Forall (λ p, p.1 ≤ now s + 5000) (timeouts s).

(** From [s] to [s'] the name of store [k] was neither changed nor looked
    up. *)
Definition nameKept (k : string) (s s' : State) : Prop :=
  storeNames s' !! k = storeNames s !! k
  ∧ ∃ l, getDoc_log s' = getDoc_log s ++ l ∧ k ∉ l.

(** The write to the 'orders' collection that an event asks for: the
    [updateDoc] of a status handler whose write succeeds. *)
Definition orderWrite (e : Event) : list (string * string * string) :=
  match e with
  | SetStatus true _ orderId newStatus => [(orderId, "status", newStatus)]
  | SetPayment true _ orderId newPaymentStatus =>
      [(orderId, "paymentStatus", newPaymentStatus)]
  | _ => []
  end.

Definition moveWrite (m : Move) : list (string * string * string) :=
  match m with MLogUpdate entry => [entry] | _ => [] end.

(** ** Re-runs of the polling effect *)







(** * Properties *)

(** ** Frame lemmas *)

Lemma size_pos_nonempty (X : gset string) : (0 < size X)%nat ↔ X ≠ ∅.
Proof.
  split.
  - intros H ->. rewrite size_empty in H. lia.
  - intros H. destruct (size X) eqn:Hs; [|lia].
    exfalso. apply H. apply leibniz_equiv, size_empty_iff. exact Hs.
Qed.

Lemma saveNotification_frame env order ty msg s :
  let s' := saveNotification env order ty msg s in
  orders s' = orders s ∧ loading s' = loading s ∧ newOrderIds s' = newOrderIds s
  ∧ storeNames s' = storeNames s ∧ previousOrdersRef s' = previousOrdersRef s
  ∧ getDoc_log s' = getDoc_log s ∧ updateDoc_log s' = updateDoc_log s
  ∧ now s' = now s ∧ timeouts s' = timeouts s ∧ intervalDue s' = intervalDue s.
Proof.
  unfold saveNotification. simpl.
  destruct (addDoc_ok env _); simpl; repeat split; reflexivity.
Qed.

Lemma fetchStoreName_frame look storeId s :
  let s' := (fetchStoreName look storeId s).2 in
  orders s' = orders s ∧ loading s' = loading s ∧ newOrderIds s' = newOrderIds s
  ∧ previousOrdersRef s' = previousOrdersRef s
  ∧ notifications s' = notifications s ∧ addDoc_log s' = addDoc_log s
  ∧ updateDoc_log s' = updateDoc_log s
  ∧ now s' = now s ∧ timeouts s' = timeouts s ∧ intervalDue s' = intervalDue s.
Proof.
  unfold fetchStoreName. simpl.
  destruct (look storeId); simpl; repeat split; reflexivity.
Qed.

(** What one pass of the [forEach] of [loadOrders] leaves alone. *)
Lemma loadOrders_each_frame env names acc order :
  let r := loadOrders_each env names acc order in
  orders r.2 = orders acc.2 ∧ loading r.2 = loading acc.2
  ∧ newOrderIds r.2 = newOrderIds acc.2
  ∧ previousOrdersRef r.2 = previousOrdersRef acc.2
  ∧ updateDoc_log r.2 = updateDoc_log acc.2
  ∧ now r.2 = now acc.2 ∧ timeouts r.2 = timeouts acc.2
  ∧ intervalDue r.2 = intervalDue acc.2.
Proof.
  destruct acc as [newIds s]. unfold loadOrders_each. simpl.
  pose proof (saveNotification_frame env order new_order (newOrderMessage order) s) as Hs.
  simpl in Hs.
  repeat case_decide;
    match goal with
    | |- context [fetchStoreName ?l ?i ?x] =>
        pose proof (fetchStoreName_frame l i x) as Hf; simpl in Hf
    | _ => idtac
    end;
    destruct (truthy _ && negb _); simpl; intuition congruence.
Qed.

Lemma loadOrders_fold_frame env names ordersData acc :
  let r := foldl (loadOrders_each env names) acc ordersData in
  orders r.2 = orders acc.2 ∧ loading r.2 = loading acc.2
  ∧ newOrderIds r.2 = newOrderIds acc.2
  ∧ previousOrdersRef r.2 = previousOrdersRef acc.2
  ∧ updateDoc_log r.2 = updateDoc_log acc.2
  ∧ now r.2 = now acc.2 ∧ timeouts r.2 = timeouts acc.2
  ∧ intervalDue r.2 = intervalDue acc.2.
Proof.
  revert acc. induction ordersData as [|o L IH]; intros acc; simpl.
  - repeat split; reflexivity.
  - specialize (IH (loadOrders_each env names acc o)). simpl in IH.
    pose proof (loadOrders_each_frame env names acc o) as H. simpl in H.
    intuition congruence.
Qed.

(** ** The collection under [addDoc] *)

Lemma addDoc_fresh (coll : gmap string Notification.t) :
  coll !! fresh (dom coll) = None.
Proof. apply not_elem_of_dom. apply is_fresh. Qed.

Lemma addDoc_lookup_old n (coll : gmap string Notification.t) id m :
  coll !! id = Some m → addDoc n coll !! id = Some m.
Proof.
  intros H. unfold addDoc. rewrite lookup_insert_ne; [done|].
  intros <-. rewrite addDoc_fresh in H. discriminate.
Qed.

Lemma persisted_addDoc ty O n coll :
  persisted ty O (addDoc n coll)
  = (persisted ty O coll
     + if decide (Notification.type n = ty ∧ Notification.orderId n = O) then 1 else 0)%nat.
Proof.
  unfold persisted, addDoc.
  pose proof (addDoc_fresh coll) as Hf.
  case_decide as Hd.
  - rewrite map_filter_insert_True by exact Hd.
    rewrite map_size_insert_None; [lia|].
    apply map_lookup_filter_None. left. exact Hf.
  - rewrite map_filter_insert_not'; [lia|exact Hd|].
    intros y Hy. rewrite Hf in Hy. discriminate.
Qed.

Lemma saveNotification_persisted ty O env order ty' msg s :
  persisted ty O (notifications (saveNotification env order ty' msg s))
  = (persisted ty O (notifications s)
     + if addDoc_ok env (notificationOf order ty' msg (now s))
       then if decide (ty' = ty ∧ Order.id order = O) then 1 else 0
       else 0)%nat.
Proof.
  unfold saveNotification. simpl.
  destruct (addDoc_ok env _); simpl; [|lia].
  rewrite persisted_addDoc. simpl. reflexivity.
Qed.

Lemma saveNotification_log env order ty msg s :
  addDoc_log (saveNotification env order ty msg s)
  = addDoc_log s ++ [notificationOf order ty msg (now s)].
Proof. unfold saveNotification. simpl. destruct (addDoc_ok env _); reflexivity. Qed.

(** ** One cycle of [loadOrders] *)

Lemma loadOrders_fold_newIds env names ordersData acc :
  (foldl (loadOrders_each env names) acc ordersData).1
  = acc.1 ∪ (ids ordersData ∖ previousOrdersRef acc.2).
Proof.
  revert acc. induction ordersData as [|o L IH]; intros [newIds s]; simpl.
  - unfold ids. simpl. set_solver.
  - rewrite IH.
    pose proof (loadOrders_each_frame env names (newIds, s) o) as Hfr.
    simpl in Hfr. destruct Hfr as (_ & _ & _ & -> & _).
    unfold loadOrders_each, ids. simpl.
    repeat case_decide; destruct (truthy _ && negb _); simpl; set_solver.
Qed.

Lemma listed_NoDup O ordersData :
  NoDup (Order.id <$> ordersData) →
  listed O ordersData = if decide (O ∈ ids ordersData) then 1%nat else 0%nat.
Proof.
  unfold listed, ids. induction ordersData as [|o L IH]; simpl; intros Hnd.
  - rewrite decide_False; [done|]. apply not_elem_of_empty.
  - apply NoDup_cons in Hnd as [Hnotin Hnd'].
    rewrite filter_cons. specialize (IH Hnd').
    destruct (decide (Order.id o = O)) as [Heq|Hne]; simpl; rewrite IH.
    + subst O. rewrite (decide_False (P := Order.id o ∈ _)).
      * rewrite decide_True; [done|]. apply elem_of_union_l, elem_of_singleton. done.
      * intros Hin. apply Hnotin. apply elem_of_list_to_set in Hin. exact Hin.
    + destruct (decide (O ∈ list_to_set (Order.id <$> L))) as [Hin|Hnin].
      * rewrite decide_True; [done|]. apply elem_of_union_r. exact Hin.
      * rewrite decide_False; [done|].
        intros [Hx|Hx]%elem_of_union; [|done].
        apply elem_of_singleton in Hx. congruence.
Qed.

Lemma loadOrders_each_notifications env names newIds s o :
  notifications (loadOrders_each env names (newIds, s) o).2
  = if decide (Order.id o ∈ previousOrdersRef s) then notifications s
    else if decide (0 < size (previousOrdersRef s))%nat
         then notifications (saveNotification env o new_order (newOrderMessage o) s)
         else notifications s.
Proof.
  unfold loadOrders_each, newOrderMessage.
  repeat case_decide; destruct (truthy _ && negb _); cbn [snd]; try reflexivity;
    match goal with
    | |- context [fetchStoreName ?l ?i ?x] =>
        pose proof (fetchStoreName_frame l i x) as Hf; cbv zeta in Hf;
        destruct Hf as (_ & _ & _ & _ & -> & _); reflexivity
    end.
Qed.

(** One pass of the [forEach] writes at most one record: a [new_order]
    record for its own order, if the previous snapshot lacks the order and
    is not empty. *)
Lemma loadOrders_each_persisted ty O env names newIds s o :
  ∃ j, persisted ty O (notifications (loadOrders_each env names (newIds, s) o).2)
       = (persisted ty O (notifications s) + j)%nat
     ∧ (j ≤ if decide (ty = new_order ∧ (O ∉ previousOrdersRef s)
                       ∧ (0 < size (previousOrdersRef s))%nat)
            then if decide (Order.id o = O) then 1 else 0 else 0)%nat
     ∧ ((∀ n, addDoc_ok env n = true) →
        j = if decide (ty = new_order ∧ (O ∉ previousOrdersRef s)
                       ∧ (0 < size (previousOrdersRef s))%nat)
            then if decide (Order.id o = O) then 1%nat else 0%nat
            else 0%nat).
Proof.
  rewrite loadOrders_each_notifications.
  destruct (decide (Order.id o ∈ previousOrdersRef s)) as [Hin|Hnin].
  { exists 0%nat. split; [lia|]. split; [lia|]. intros _.
    repeat case_decide; try reflexivity. naive_solver. }
  destruct (decide (0 < size (previousOrdersRef s))%nat) as [Hpos|Hz].
  - rewrite saveNotification_persisted. eexists. split; [reflexivity|]. split.
    + destruct (addDoc_ok env _); repeat case_decide; try lia; naive_solver.
    + intros Hok. rewrite Hok. repeat case_decide; try lia; naive_solver.
  - exists 0%nat. split; [lia|]. split; [lia|]. intros _.
    repeat case_decide; try reflexivity. naive_solver.
Qed.

(** The writes of one [forEach]: [new_order] records only, one for each
    listed order that the previous snapshot lacks, and none while that
    snapshot is empty. *)
Lemma loadOrders_fold_persisted ty O env names ordersData acc :
  let r := foldl (loadOrders_each env names) acc ordersData in
  let bound :=
    if decide (ty = new_order ∧ (O ∉ previousOrdersRef acc.2)
               ∧ (0 < size (previousOrdersRef acc.2))%nat)
    then listed O ordersData else 0%nat in
  ∃ k, persisted ty O (notifications r.2) = (persisted ty O (notifications acc.2) + k)%nat
       ∧ (k ≤ bound)%nat
       ∧ ((∀ n, addDoc_ok env n = true) → k = bound).
Proof.
  revert acc. induction ordersData as [|o L IH]; intros [newIds s]; cbn [foldl snd].
  - exists 0%nat. unfold listed. simpl. repeat split; try lia; case_decide; lia.
  - destruct (IH (loadOrders_each env names (newIds, s) o)) as (k & Hk & Hle & Heq).
    pose proof (loadOrders_each_frame env names (newIds, s) o) as Hfr.
    cbv zeta in Hfr. cbn [snd] in Hfr. destruct Hfr as (_ & _ & _ & Hprev & _).
    rewrite Hprev in Hle, Heq. rewrite Hk. clear Hk IH Hprev.
    destruct (loadOrders_each_persisted ty O env names newIds s o) as (j & Hj & Hjle & Hjeq).
    destruct (loadOrders_each env names (newIds, s) o) as [newIds' s'].
    cbn [snd] in *. rewrite Hj. exists (j + k)%nat. split; [lia|].
    unfold listed in *. rewrite filter_cons.
    split.
    + repeat case_decide; simpl in *; lia.
    + intros Hok. specialize (Heq Hok). specialize (Hjeq Hok).
      repeat case_decide; simpl in *; lia.
Qed.

Lemma loadOrders_each_writes env names newIds s o :
  let r := loadOrders_each env names (newIds, s) o in
  addDoc_log r.2 = addDoc_log s ++ newOrderRecords (now s) (previousOrdersRef s) [o]
  ∧ notifications r.2
    = addDocs env (newOrderRecords (now s) (previousOrdersRef s) [o]) (notifications s).
Proof.
  cbv zeta. rewrite loadOrders_each_notifications.
  unfold newOrderRecords, addDocs.
  assert (addDoc_log (loadOrders_each env names (newIds, s) o).2
          = if decide (Order.id o ∈ previousOrdersRef s) then addDoc_log s
            else if decide (0 < size (previousOrdersRef s))%nat
                 then addDoc_log (saveNotification env o new_order (newOrderMessage o) s)
                 else addDoc_log s) as ->.
  { unfold loadOrders_each.
    repeat case_decide; destruct (truthy _ && negb _); cbn [snd]; try reflexivity;
      match goal with
      | |- context [fetchStoreName ?l ?i ?x] =>
          pose proof (fetchStoreName_frame l i x) as Hf; cbv zeta in Hf;
          destruct Hf as (_ & _ & _ & _ & _ & -> & _); reflexivity
      end. }
  rewrite filter_cons, filter_nil.
  destruct (decide (0 < size (previousOrdersRef s))%nat) as [Hpos|Hz];
    destruct (decide (Order.id o ∈ previousOrdersRef s)) as [Hin|Hnin];
    try (rewrite (decide_False (P := Order.id o ∉ _)) by (intros Hn; exact (Hn Hin)));
    try (rewrite (decide_True (P := Order.id o ∉ _)) by exact Hnin);
    simpl; rewrite ?app_nil_r; try done.
  rewrite saveNotification_log. split; [done|].
  unfold saveNotification. simpl. rewrite filter_cons, filter_nil.
  destruct (addDoc_ok env _) eqn:Hok; simpl; reflexivity.
Qed.

Lemma newOrderRecords_cons at_ prev o L :
  newOrderRecords at_ prev (o :: L)
  = newOrderRecords at_ prev [o] ++ newOrderRecords at_ prev L.
Proof.
  unfold newOrderRecords. case_decide; [|done].
  rewrite !filter_cons, filter_nil. case_decide; simpl; done.
Qed.

Lemma addDocs_app env ns ms coll :
  addDocs env (ns ++ ms) coll = addDocs env ms (addDocs env ns coll).
Proof. unfold addDocs. rewrite filter_app, foldl_app. done. Qed.

Lemma loadOrders_fold_writes env names ordersData acc :
  let r := foldl (loadOrders_each env names) acc ordersData in
  addDoc_log r.2
  = addDoc_log acc.2 ++ newOrderRecords (now acc.2) (previousOrdersRef acc.2) ordersData
  ∧ notifications r.2
    = addDocs env (newOrderRecords (now acc.2) (previousOrdersRef acc.2) ordersData)
        (notifications acc.2).
Proof.
  revert acc. induction ordersData as [|o L IH]; intros [newIds s]; cbn [foldl snd].
  - unfold newOrderRecords, addDocs. rewrite filter_nil.
    case_decide; simpl; rewrite app_nil_r; done.
  - specialize (IH (loadOrders_each env names (newIds, s) o)). cbv zeta in IH.
    destruct IH as [IHl IHn].
    pose proof (loadOrders_each_frame env names (newIds, s) o) as Hfr.
    cbv zeta in Hfr. cbn [snd] in Hfr.
    destruct Hfr as (_ & _ & _ & Hprev & _ & Hnow & _).
    pose proof (loadOrders_each_writes env names newIds s o) as [Hl Hn].
    rewrite Hprev, Hnow in IHl, IHn.
    rewrite IHl, IHn, Hl, Hn, (newOrderRecords_cons _ _ o L), addDocs_app, app_assoc.
    done.
Qed.

(** The state after a cycle of [loadOrders] whose fetch succeeds. *)
Lemma loadOrders_fetched env s ordersData :
  getDocs_orders env = Some ordersData →
  let s' := loadOrders env s in
  let newIds := ids ordersData ∖ previousOrdersRef s in
  previousOrdersRef s' = ids ordersData
  ∧ orders s' = ordersData
  ∧ newOrderIds s' = (if decide (0 < size newIds)%nat then newIds else newOrderIds s)
  ∧ timeouts s'
    = (if decide (0 < size newIds)%nat
       then timeouts s ++ [(now s + 5000, ClearNewOrderIds)] else timeouts s)
  ∧ addDoc_log s'
    = addDoc_log s ++ newOrderRecords (now s) (previousOrdersRef s) ordersData
  ∧ notifications s'
    = addDocs env (newOrderRecords (now s) (previousOrdersRef s) ordersData)
        (notifications s)
  ∧ now s' = now s ∧ intervalDue s' = intervalDue s
  ∧ updateDoc_log s' = updateDoc_log s.
Proof.
  intros Hget. cbv zeta. unfold loadOrders, loadOrders_in. rewrite Hget.
  pose proof (loadOrders_fold_frame env (storeNames s) ordersData (∅, s)) as Hfr.
  pose proof (loadOrders_fold_newIds env (storeNames s) ordersData (∅, s)) as Hnew.
  pose proof (loadOrders_fold_writes env (storeNames s) ordersData (∅, s)) as Hw.
  cbv zeta in Hfr, Hw. cbn [fst snd] in Hfr, Hnew, Hw.
  destruct (foldl (loadOrders_each env (storeNames s)) (∅, s) ordersData)
    as [newIds s1].
  cbn [fst snd] in *.
  destruct Hfr as (Ho & Hl & Hn & Hp & Hu & Hnow & Ht & Hi).
  destruct Hw as [Hwl Hwn].
  assert (newIds = ids ordersData ∖ previousOrdersRef s) as ->
    by (rewrite Hnew; set_solver).
  case_decide; simpl; rewrite ?Hnow, ?Ht; repeat split; done.
Qed.

Lemma loadOrders_failed env s :
  getDocs_orders env = None → loadOrders env s = setLoading false s.
Proof. intros H. unfold loadOrders, loadOrders_in. rewrite H. done. Qed.

(** ** One cycle of [fetchOrders] *)

Lemma storeLoop_frame env names storeIds s :
  let s' := foldl (lookupIfMissing env names) s storeIds in
  orders s' = orders s ∧ loading s' = loading s ∧ newOrderIds s' = newOrderIds s
  ∧ previousOrdersRef s' = previousOrdersRef s
  ∧ notifications s' = notifications s ∧ addDoc_log s' = addDoc_log s
  ∧ updateDoc_log s' = updateDoc_log s
  ∧ now s' = now s ∧ timeouts s' = timeouts s ∧ intervalDue s' = intervalDue s.
Proof.
  revert s. induction storeIds as [|i l IH]; intros s; cbn [foldl].
  - repeat split; reflexivity.
  - specialize (IH (lookupIfMissing env names s i)). cbv zeta in IH.
    assert (Hstep : let s1 := lookupIfMissing env names s i in
      orders s1 = orders s ∧ loading s1 = loading s ∧ newOrderIds s1 = newOrderIds s
      ∧ previousOrdersRef s1 = previousOrdersRef s
      ∧ notifications s1 = notifications s ∧ addDoc_log s1 = addDoc_log s
      ∧ updateDoc_log s1 = updateDoc_log s
      ∧ now s1 = now s ∧ timeouts s1 = timeouts s ∧ intervalDue s1 = intervalDue s).
    { unfold lookupIfMissing. destruct (truthy i && negb _).
      - apply fetchStoreName_frame.
      - repeat split; reflexivity. }
    cbv zeta in Hstep. intuition congruence.
Qed.

(** While [loading] is still [true], a cycle of [fetchOrders] looks up
    store names and replaces the snapshot, and does nothing else. *)
Lemma fetchOrders_loading env s ordersData :
  loading s = true → getDocs_orders env = Some ordersData →
  let s' := fetchOrders env s in
  newOrderIds s' = newOrderIds s ∧ addDoc_log s' = addDoc_log s
  ∧ notifications s' = notifications s ∧ timeouts s' = timeouts s
  ∧ previousOrdersRef s' = ids ordersData ∧ loading s' = false.
Proof.
  intros Hl Hget. cbv zeta. unfold fetchOrders, fetchOrders_in. rewrite Hl, Hget.
  pose proof (storeLoop_frame env (storeNames s) (uniqueStoreIds ordersData) s) as Hfr.
  cbv zeta in Hfr.
  destruct Hfr as (_ & _ & Hn & _ & Hc & Ha & _ & _ & Ht & _).
  simpl. repeat split; assumption.
Qed.

(** ** Bootstrap *)

(** C1, as the code has it: the first poll cycle after mount hands nothing
    to [addDoc] and leaves the 'notifications' collection as it found it,
    whatever the fetch returns, in both revisions.  The set of new
    identifiers of that cycle is empty in the [fetchOrders] revision; in the
    [loadOrders] revision it holds every fetched identifier, and all of them
    are highlighted. *)
Theorem bootstrap_poll_writes_nothing (coll : gmap string Notification.t) (t0 : Z)
    (env : PollEnv) :
  let sL := stepLoad (Effect env) (initial coll t0) in
  let sF := stepFetch (Effect env) (initial coll t0) in
  (addDoc_log sL = [] ∧ notifications sL = coll)
  ∧ (addDoc_log sF = [] ∧ notifications sF = coll ∧ newOrderIds sF = ∅)
  ∧ newOrderIds sL = from_option ids ∅ (getDocs_orders env).
Proof.
  cbv zeta. unfold stepLoad, stepFetch.
  change (now (initial coll t0)) with t0.
  set (s0 := set_intervalDue (Some (t0 + 5000)) (initial coll t0)).
  set (s1 := set_intervalDue (Some (t0 + 60000)) (initial coll t0)).
  destruct (getDocs_orders env) as [L|] eqn:Hget.
  - pose proof (loadOrders_fetched env s0 L Hget) as HL. cbv zeta in HL.
    destruct HL as (_ & _ & Hnew & _ & Hlog & Hcoll & _).
    pose proof (fetchOrders_loading env s1 L eq_refl Hget) as HF. cbv zeta in HF.
    destruct HF as (Hn & Ha & Hc & _).
    change (previousOrdersRef s0) with (∅ : gset string) in *.
    change (newOrderIds s0) with (∅ : gset string) in *.
    change (newOrderIds s1) with (∅ : gset string) in *.
    change (addDoc_log s0) with (@nil Notification.t) in *.
    change (addDoc_log s1) with (@nil Notification.t) in *.
    change (notifications s0) with coll in *.
    change (notifications s1) with coll in *.
    assert (newOrderRecords (now s0) ∅ L = []) as Hrec.
    { unfold newOrderRecords. rewrite decide_False; [done|].
      rewrite size_empty. lia. }
    rewrite Hrec in Hlog, Hcoll. simpl in Hlog, Hcoll.
    repeat split; try assumption.
    rewrite Hnew, difference_empty_L. simpl.
    destruct (decide (0 < size (ids L))%nat) as [Hsz|Hsz]; [reflexivity|].
    destruct (decide (ids L = ∅)) as [Hemp|Hne]; [symmetry; exact Hemp|].
    apply size_pos_nonempty in Hne. contradiction.
  - rewrite (loadOrders_failed env s0 Hget).
    unfold fetchOrders, fetchOrders_in. rewrite Hget. simpl. repeat split; reflexivity.
Qed.

(** The claim as the specification words it fails in the [loadOrders]
    revision: a first fetch that returns an order reports it as new. *)
Lemma bootstrap_reports_new_ids :
  ¬ (∀ (coll : gmap string Notification.t) (t0 : Z) (env : PollEnv),
       let sL := stepLoad (Effect env) (initial coll t0) in
       addDoc_log sL = [] ∧ newOrderIds sL = ∅).
Proof.
  intros H. destruct (H ∅ 0 (fetching [orderA])) as [_ Hnew].
  assert ("A" ∈ newOrderIds (stepLoad (Effect (fetching [orderA])) (initial ∅ 0))) as Hin
    by (vm_compute; reflexivity).
  rewrite Hnew in Hin. exact (not_elem_of_empty _ Hin).
Qed.

(** ** Timers touch the highlight set only *)

Lemma fire_frame cbs s :
  let s' := fire cbs s in
  orders s' = orders s ∧ loading s' = loading s ∧ storeNames s' = storeNames s
  ∧ previousOrdersRef s' = previousOrdersRef s
  ∧ notifications s' = notifications s ∧ addDoc_log s' = addDoc_log s
  ∧ getDoc_log s' = getDoc_log s ∧ updateDoc_log s' = updateDoc_log s
  ∧ now s' = now s ∧ timeouts s' = timeouts s ∧ intervalDue s' = intervalDue s.
Proof.
  unfold fire. revert s. induction cbs as [|[t cb] l IH]; intros s; cbn [foldl].
  - repeat split; reflexivity.
  - specialize (IH (runTimeout cb s)). cbv zeta in IH.
    destruct cb; simpl in *; exact IH.
Qed.

Lemma elapse_frame t s :
  let s' := elapse t s in
  orders s' = orders s ∧ loading s' = loading s ∧ storeNames s' = storeNames s
  ∧ previousOrdersRef s' = previousOrdersRef s
  ∧ notifications s' = notifications s ∧ addDoc_log s' = addDoc_log s
  ∧ getDoc_log s' = getDoc_log s ∧ updateDoc_log s' = updateDoc_log s
  ∧ intervalDue s' = intervalDue s.
Proof.
  unfold elapse. simpl.
  pose proof (fire_frame (merge_sort earlier (filter (dueBy t) (timeouts s))) s) as H.
  cbv zeta in H. intuition.
Qed.

(** ** Runs of the [loadOrders] revision *)

Lemma stepLoad_prePoll e s :
  stepLoad e s
  = match polledBy e with
    | Some env => loadOrders env (prePoll e s)
    | None => prePoll e s
    end.
Proof.
  destruct e as [dt|env|env|env|[] env i v|[] env i v]; reflexivity.
Qed.

Lemma prePoll_previous e s : previousOrdersRef (prePoll e s) = previousOrdersRef s.
Proof.
  destruct e as [dt|env|env|env|[] env i v|[] env i v]; simpl; try reflexivity.
  - apply elapse_frame.
  - destruct (intervalDue s); [|reflexivity]. simpl. apply elapse_frame.
  - destruct (find _ _); [|reflexivity].
    match goal with |- context [saveNotification ?e ?o ?t ?m ?x] =>
      pose proof (saveNotification_frame e o t m x) as H end.
    cbv zeta in H. destruct H as (_ & _ & _ & _ & -> & _). reflexivity.
  - destruct (find _ _); [|reflexivity].
    match goal with |- context [saveNotification ?e ?o ?t ?m ?x] =>
      pose proof (saveNotification_frame e o t m x) as H end.
    cbv zeta in H. destruct H as (_ & _ & _ & _ & -> & _). reflexivity.
Qed.

Lemma prePoll_new_order O e s :
  persisted new_order O (notifications (prePoll e s))
  = persisted new_order O (notifications s).
Proof.
  destruct e as [dt|env|env|env|[] env i v|[] env i v]; simpl; try reflexivity.
  - f_equal. apply elapse_frame.
  - destruct (intervalDue s); [|reflexivity]. simpl. f_equal. apply elapse_frame.
  - destruct (find _ _); [|reflexivity].
    rewrite saveNotification_persisted.
    change (notifications (set_updateDoc_log _ s)) with (notifications s).
    destruct (addDoc_ok env _); [|lia].
    rewrite decide_False; [lia|]. intros [? _]. discriminate.
  - destruct (find _ _); [|reflexivity].
    rewrite saveNotification_persisted.
    change (notifications (set_updateDoc_log _ s)) with (notifications s).
    destruct (addDoc_ok env _); [|lia].
    rewrite decide_False; [lia|]. intros [? _]. discriminate.
Qed.

Lemma loadOrders_in_persisted ty O names env s ordersData :
  getDocs_orders env = Some ordersData →
  let bound :=
    if decide (ty = new_order ∧ (O ∉ previousOrdersRef s)
               ∧ (0 < size (previousOrdersRef s))%nat)
    then listed O ordersData else 0%nat in
  ∃ k, persisted ty O (notifications (loadOrders_in names env s))
       = (persisted ty O (notifications s) + k)%nat
       ∧ (k ≤ bound)%nat
       ∧ ((∀ n, addDoc_ok env n = true) → k = bound).
Proof.
  intros Hget. cbv zeta.
  pose proof (loadOrders_fold_persisted ty O env names ordersData (∅, s)) as H.
  cbv zeta in H. cbn [snd] in H.
  unfold loadOrders_in. rewrite Hget.
  destruct (foldl (loadOrders_each env names) (∅, s) ordersData) as [newIds s1].
  cbn [snd] in H. destruct (decide (0 < size newIds)%nat); simpl; exact H.
Qed.

Lemma loadOrders_persisted ty O env s ordersData :
  getDocs_orders env = Some ordersData →
  let bound :=
    if decide (ty = new_order ∧ (O ∉ previousOrdersRef s)
               ∧ (0 < size (previousOrdersRef s))%nat)
    then listed O ordersData else 0%nat in
  ∃ k, persisted ty O (notifications (loadOrders env s))
       = (persisted ty O (notifications s) + k)%nat
       ∧ (k ≤ bound)%nat
       ∧ ((∀ n, addDoc_ok env n = true) → k = bound).
Proof. apply loadOrders_in_persisted. Qed.

Lemma laterAppearances_le O prev Ls :
  (laterAppearances O prev Ls ≤ appearances O prev Ls)%nat.
Proof.
  revert prev. induction Ls as [|L Ls IH]; intros prev; simpl; [lia|].
  specialize (IH (ids L)). repeat case_decide; try lia. naive_solver.
Qed.

Lemma snapshots_cons e evs :
  snapshots (e :: evs)
  = match fetchedBy e with Some L => L :: snapshots evs | None => snapshots evs end.
Proof. reflexivity. Qed.

Lemma fetchedBy_polled e env : polledBy e = Some env → fetchedBy e = getDocs_orders env.
Proof. unfold fetchedBy. intros ->. reflexivity. Qed.

Lemma fetchedBy_unpolled e : polledBy e = None → fetchedBy e = None.
Proof. unfold fetchedBy. intros ->. reflexivity. Qed.

(** What a run persists for [O]: one [new_order] record for each
    appearance of [O] that follows a non-empty fetch, less the writes that
    failed. *)
Lemma runLoad_new_order O evs s :
  Forall (λ L, NoDup (Order.id <$> L)) (snapshots evs) →
  ∃ k, persisted new_order O (notifications (runLoad evs s))
       = (persisted new_order O (notifications s) + k)%nat
     ∧ (k ≤ laterAppearances O (previousOrdersRef s) (snapshots evs))%nat
     ∧ (Forall writesSucceed evs →
        k = laterAppearances O (previousOrdersRef s) (snapshots evs)).
Proof.
  unfold runLoad. revert s. induction evs as [|e evs IH]; intros s Hnd.
  - exists 0%nat. simpl. repeat split; lia.
  - cbn [foldl flip]. rewrite stepLoad_prePoll.
    rewrite snapshots_cons in *.
    destruct (polledBy e) as [env|] eqn:Hp;
      [rewrite (fetchedBy_polled e env Hp) in *
      |rewrite (fetchedBy_unpolled e Hp) in *].
    + destruct (getDocs_orders env) as [L|] eqn:Hget.
      * apply Forall_cons in Hnd as [HndL Hnd].
        destruct (IH (loadOrders env (prePoll e s)) Hnd) as (k & Hk & Hle & Heq).
        destruct (loadOrders_persisted new_order O env (prePoll e s) L Hget)
          as (j & Hj & Hjle & Hjeq).
        pose proof (loadOrders_fetched env (prePoll e s) L Hget) as Hf.
        cbv zeta in Hf. destruct Hf as (Hprev & _).
        rewrite Hprev in Hle, Heq.
        rewrite prePoll_previous in Hjle, Hjeq. rewrite prePoll_new_order in Hj.
        rewrite (listed_NoDup O L HndL) in Hjle, Hjeq.
        exists (j + k)%nat. rewrite Hk, Hj. split; [lia|].
        cbn [laterAppearances].
        assert (Hb : (if decide (new_order = new_order ∧ (O ∉ previousOrdersRef s)
                           ∧ (0 < size (previousOrdersRef s))%nat)
                then if decide (O ∈ ids L) then 1 else 0 else 0)%nat
               = (if decide (O ∈ ids L ∧ (O ∉ previousOrdersRef s)
                             ∧ previousOrdersRef s ≠ ∅) then 1 else 0)%nat).
        { pose proof (size_pos_nonempty (previousOrdersRef s)) as Hsz.
          repeat case_decide; try reflexivity; exfalso; naive_solver. }
        rewrite Hb in Hjle, Hjeq. split; [lia|].
        intros Hok. apply Forall_cons in Hok as [Hok1 Hok].
        unfold writesSucceed in Hok1. rewrite Hp in Hok1.
        rewrite (Heq Hok), (Hjeq Hok1). reflexivity.
      * rewrite (loadOrders_failed env _ Hget).
        destruct (IH (setLoading false (prePoll e s)) Hnd) as (k & Hk & Hle & Heq).
        exists k.
        change (previousOrdersRef (setLoading false (prePoll e s)))
          with (previousOrdersRef (prePoll e s)) in *.
        change (notifications (setLoading false (prePoll e s)))
          with (notifications (prePoll e s)) in *.
        rewrite prePoll_previous in Hle, Heq. rewrite prePoll_new_order in Hk.
        split; [exact Hk|]. split; [exact Hle|].
        intros Hok. apply Forall_cons in Hok as [_ Hok]. exact (Heq Hok).
    + destruct (IH (prePoll e s) Hnd) as (k & Hk & Hle & Heq).
      exists k. rewrite prePoll_previous in Hle, Heq. rewrite prePoll_new_order in Hk.
      split; [exact Hk|]. split; [exact Hle|].
      intros Hok. apply Forall_cons in Hok as [_ Hok]. exact (Heq Hok).
Qed.

(** ** Runs of the [fetchOrders] revision *)

Lemma fetchOrders_added_previous env o s :
  previousOrdersRef (fetchOrders_added env o s) = previousOrdersRef s.
Proof.
  unfold fetchOrders_added.
  destruct (decide (Order.id o ∈ previousOrdersRef s)); [reflexivity|].
  unfold setTimeout. simpl.
  match goal with |- context [saveNotification ?e ?o ?t ?m ?x] =>
    pose proof (saveNotification_frame e o t m x) as Hs end.
  cbv zeta in Hs. destruct Hs as (_ & _ & _ & _ & -> & _). reflexivity.
Qed.

Lemma fetchOrders_added_new_order O env o s :
  ∃ j, persisted new_order O (notifications (fetchOrders_added env o s))
       = (persisted new_order O (notifications s) + j)%nat
     ∧ (j ≤ if decide (Order.id o = O ∧ (O ∉ previousOrdersRef s)) then 1 else 0)%nat.
Proof.
  unfold fetchOrders_added.
  destruct (decide (Order.id o ∈ previousOrdersRef s)) as [Hin|Hnin].
  - exists 0%nat. split; [lia|]. case_decide; lia.
  - unfold setTimeout. simpl. rewrite saveNotification_persisted. simpl.
    eexists. split; [reflexivity|].
    destruct (addDoc_ok env _); repeat case_decide; try lia. naive_solver.
Qed.

(** An order whose id is in the snapshot is not new, whenever it is looked at. *)
Lemma fetchOrders_resumed_known env suspended s :
  Forall (λ o, Order.id o ∈ previousOrdersRef s) suspended →
  foldl (λ s order, fetchOrders_added env order s) s suspended = s.
Proof.
  induction 1 as [|o l Ho _ IH]; cbn [foldl]; [reflexivity|].
  unfold fetchOrders_added at 2. rewrite decide_True by exact Ho. exact IH.
Qed.

Lemma fetchOrders_changes_new_order O env names ordersData acc :
  let r := foldl (fetchOrders_change env names) acc ordersData in
  previousOrdersRef r.1 = previousOrdersRef acc.1
  ∧ (∀ o, o ∈ r.2 → o ∈ acc.2 ∨ o ∈ ordersData)
  ∧ ∃ k, persisted new_order O (notifications r.1)
         = (persisted new_order O (notifications acc.1) + k)%nat
       ∧ (k ≤ if decide (O ∉ previousOrdersRef acc.1) then listed O ordersData else 0)%nat.
Proof.
  revert acc. induction ordersData as [|o L IH]; intros [s susp]; cbn [foldl fst snd].
  - split; [reflexivity|]. split; [intros o Ho; left; exact Ho|].
    exists 0%nat. split; [lia|]. unfold listed. case_decide; simpl; lia.
  - specialize (IH (fetchOrders_change env names (s, susp) o)). cbv zeta in IH.
    destruct IH as (Hprev & Hsusp & k & Hk & Hle).
    assert (previousOrdersRef (fetchOrders_change env names (s, susp) o).1
            = previousOrdersRef s
            ∧ (∀ x, x ∈ (fetchOrders_change env names (s, susp) o).2 → x ∈ susp ∨ x = o)
            ∧ ∃ j, persisted new_order O
                     (notifications (fetchOrders_change env names (s, susp) o).1)
                   = (persisted new_order O (notifications s) + j)%nat
                 ∧ (j ≤ if decide (Order.id o = O ∧ (O ∉ previousOrdersRef s))
                        then 1 else 0)%nat) as (Hp1 & Hs1 & j & Hj & Hjle).
    { unfold fetchOrders_change. destruct (truthy _ && negb _); cbn [fst snd].
      - pose proof (fetchStoreName_frame (getDoc_store env) (Order.storeId o) s) as Hf.
        cbv zeta in Hf. destruct Hf as (_ & _ & _ & -> & -> & _).
        split; [reflexivity|]. split.
        + intros x Hx. apply elem_of_app in Hx as [Hx|Hx]; [left; exact Hx|].
          right. apply list_elem_of_singleton in Hx. exact Hx.
        + exists 0%nat. split; [lia|]. case_decide; lia.
      - split; [apply fetchOrders_added_previous|]. split; [intros x Hx; left; exact Hx|].
        apply fetchOrders_added_new_order. }
    rewrite Hprev, Hp1. split; [reflexivity|]. split.
    + intros x Hx. destruct (Hsusp x Hx) as [Hx'|Hx'].
      * destruct (Hs1 x Hx') as [Hy | ->];
          [left; exact Hy|right; apply elem_of_cons; left; reflexivity].
      * right. apply elem_of_cons. right. exact Hx'.
    + exists (j + k)%nat. rewrite Hk, Hj. split; [lia|].
      rewrite Hp1 in Hle. unfold listed in *. rewrite filter_cons.
      repeat case_decide; simpl in *; try lia; exfalso; naive_solver.
Qed.

(** One cycle of [fetchOrders] writes at most one [new_order] record for
    each listed order that the previous snapshot lacks. *)
Lemma fetchOrders_new_order O env s ordersData :
  getDocs_orders env = Some ordersData →
  previousOrdersRef (fetchOrders env s) = ids ordersData
  ∧ ∃ k, persisted new_order O (notifications (fetchOrders env s))
         = (persisted new_order O (notifications s) + k)%nat
       ∧ (k ≤ if decide (O ∉ previousOrdersRef s) then listed O ordersData else 0)%nat.
Proof.
  intros Hget. unfold fetchOrders, fetchOrders_in. rewrite Hget.
  set (s1 := foldl (lookupIfMissing env (storeNames s)) s (uniqueStoreIds ordersData)).
  pose proof (storeLoop_frame env (storeNames s) (uniqueStoreIds ordersData) s) as Hfr.
  cbv zeta in Hfr. fold s1 in Hfr. destruct Hfr as (_ & _ & _ & Hp1 & Hn1 & _).
  assert (Hch : let r := if loading s then (s1, [])
                         else foldl (fetchOrders_change env (storeNames s)) (s1, [])
                                ordersData in
                previousOrdersRef r.1 = previousOrdersRef s
                ∧ (∀ o, o ∈ r.2 → o ∈ ordersData)
                ∧ ∃ k, persisted new_order O (notifications r.1)
                       = (persisted new_order O (notifications s) + k)%nat
                     ∧ (k ≤ if decide (O ∉ previousOrdersRef s)
                            then listed O ordersData else 0)%nat).
  { cbv zeta. destruct (loading s); cbn [fst snd].
    - split; [exact Hp1|]. split; [intros o Ho; inversion Ho|].
      exists 0%nat. rewrite Hn1. split; [lia|]. lia.
    - pose proof (fetchOrders_changes_new_order O env (storeNames s) ordersData (s1, []))
        as H. cbv zeta in H. cbn [fst snd] in H.
      destruct H as (Hp & Hs & k & Hk & Hle).
      rewrite Hp, Hp1. split; [reflexivity|]. split.
      + intros o Ho. destruct (Hs o Ho) as [Hx|Hx]; [inversion Hx|exact Hx].
      + exists k. rewrite Hk, Hn1. rewrite Hp1 in Hle. split; [reflexivity|exact Hle]. }
  cbv zeta in Hch.
  destruct (if loading s then (s1, [])
            else foldl (fetchOrders_change env (storeNames s)) (s1, []) ordersData)
    as [s2 suspended].
  cbn [fst snd] in Hch. destruct Hch as (_ & Hsusp & k & Hk & Hle).
  rewrite fetchOrders_resumed_known.
  - split; [reflexivity|]. exists k. split; [exact Hk|exact Hle].
  - apply Forall_forall. intros o Ho. simpl. unfold ids.
    apply elem_of_list_to_set, list_elem_of_fmap. exists o. split; [reflexivity|].
    apply Hsusp. exact Ho.
Qed.

Lemma stepFetch_prePollFetch e s :
  stepFetch e s
  = match polledByFetch e with
    | Some env => fetchOrders env (prePollFetch e s)
    | None => prePollFetch e s
    end.
Proof. destruct e; reflexivity. Qed.

Lemma prePollFetch_frame e s :
  previousOrdersRef (prePollFetch e s) = previousOrdersRef s
  ∧ notifications (prePollFetch e s) = notifications s.
Proof.
  destruct e as [dt|env|env|env|[] env i v|[] env i v]; simpl;
    try (split; reflexivity).
  - split; apply elapse_frame.
  - destruct (intervalDue s); [|split; reflexivity]. simpl. split; apply elapse_frame.
Qed.

Lemma snapshotsFetch_cons e evs :
  snapshotsFetch (e :: evs)
  = match polledByFetch e ≫= getDocs_orders with
    | Some L => L :: snapshotsFetch evs
    | None => snapshotsFetch evs
    end.
Proof. reflexivity. Qed.

(** Over any run of the [fetchOrders] revision, the collection gains at
    most one [new_order] record for each appearance of [O]. *)
Lemma runFetch_new_order O evs s :
  Forall (λ L, NoDup (Order.id <$> L)) (snapshotsFetch evs) →
  (persisted new_order O (notifications (runFetch evs s))
   ≤ persisted new_order O (notifications s)
     + appearances O (previousOrdersRef s) (snapshotsFetch evs))%nat.
Proof.
  unfold runFetch. revert s. induction evs as [|e evs IH]; intros s Hnd.
  - simpl. lia.
  - cbn [foldl flip]. rewrite stepFetch_prePollFetch.
    rewrite snapshotsFetch_cons in *.
    destruct (prePollFetch_frame e s) as [Hpp Hpn].
    destruct (polledByFetch e) as [env|]; cbn [mbind option_bind] in *.
    + destruct (getDocs_orders env) as [L|] eqn:Hget.
      * apply Forall_cons in Hnd as [HndL Hnd].
        destruct (fetchOrders_new_order O env (prePollFetch e s) L Hget)
          as (Hprev & k & Hk & Hle).
        specialize (IH (fetchOrders env (prePollFetch e s)) Hnd).
        rewrite Hprev, Hk in IH. rewrite Hpp, (listed_NoDup O L HndL) in Hle.
        rewrite Hpn in IH. cbn [appearances].
        repeat case_decide; try lia; exfalso; naive_solver.
      * specialize (IH (fetchOrders env (prePollFetch e s)) Hnd).
        unfold fetchOrders, fetchOrders_in in IH. rewrite Hget in IH.
        change (previousOrdersRef (setLoading false (prePollFetch e s)))
          with (previousOrdersRef (prePollFetch e s)) in IH.
        change (notifications (setLoading false (prePollFetch e s)))
          with (notifications (prePollFetch e s)) in IH.
        rewrite Hpp, Hpn in IH. unfold fetchOrders, fetchOrders_in. rewrite Hget. exact IH.
    + specialize (IH (prePollFetch e s) Hnd). rewrite Hpp, Hpn in IH. exact IH.
Qed.

(** ** New-order notifications over a run *)

(** Over any run whose fetches list every order once, the collection gains
    at most one [new_order] notification for [O] for each appearance of [O]
    (a fetch that contains [O] while the fetch before did not), in both
    revisions.  In the [loadOrders] revision, when the writes succeed, it
    gains exactly one for each appearance that follows a non-empty fetch,
    and none for an appearance in the first fetch. *)
Lemma new_order_per_appearance (O : string) (evs : list Event)
    (coll : gmap string Notification.t) (t0 : Z) :
  Forall (λ L, NoDup (Order.id <$> L)) (snapshots evs) →
  Forall (λ L, NoDup (Order.id <$> L)) (snapshotsFetch evs) →
  let c0 := persisted new_order O coll in
  let cL := persisted new_order O (notifications (runLoad evs (initial coll t0))) in
  let cF := persisted new_order O (notifications (runFetch evs (initial coll t0))) in
  (c0 ≤ cL ≤ c0 + laterAppearances O ∅ (snapshots evs))%nat
  ∧ (laterAppearances O ∅ (snapshots evs) ≤ appearances O ∅ (snapshots evs))%nat
  ∧ (Forall writesSucceed evs → cL = (c0 + laterAppearances O ∅ (snapshots evs))%nat)
  ∧ (cF ≤ c0 + appearances O ∅ (snapshotsFetch evs))%nat.
Proof.
  intros Hnd HndF. cbv zeta.
  destruct (runLoad_new_order O evs (initial coll t0) Hnd) as (k & Hk & Hle & Heq).
  pose proof (runFetch_new_order O evs (initial coll t0) HndF) as HF.
  change (previousOrdersRef (initial coll t0)) with (∅ : gset string) in *.
  change (notifications (initial coll t0)) with coll in *.
  rewrite Hk. split; [lia|]. split; [apply laterAppearances_le|]. split.
  - intros Hok. rewrite (Heq Hok). reflexivity.
  - exact HF.
Qed.

(** ** Bootstrap detection *)

(** While the previous snapshot is empty, a cycle of [loadOrders] writes
    nothing: the test is the size of the snapshot, not a first-poll flag. *)
Lemma loadOrders_empty_snapshot env s :
  previousOrdersRef s = ∅ →
  addDoc_log (loadOrders env s) = addDoc_log s
  ∧ notifications (loadOrders env s) = notifications s.
Proof.
  intros Hprev. destruct (getDocs_orders env) as [L|] eqn:Hget.
  - pose proof (loadOrders_fetched env s L Hget) as H. cbv zeta in H.
    destruct H as (_ & _ & _ & _ & Hlog & Hcoll & _).
    rewrite Hlog, Hcoll, Hprev. unfold newOrderRecords.
    rewrite decide_False by (rewrite size_empty; lia).
    rewrite app_nil_r. split; reflexivity.
  - rewrite (loadOrders_failed env s Hget). split; reflexivity.
Qed.

(** C3 at its failing input ([loadOrders] revision): the first fetch returns
    an empty collection, the second returns order A.  A is highlighted, and
    no notification is handed to [addDoc]. *)
Theorem empty_first_fetch_suppresses_notification :
  let s := runLoad emptyThenA (initial ∅ 0) in
  addDoc_log s = [] ∧ persisted new_order "A" (notifications s) = 0%nat
  ∧ previousOrdersRef s = {[ "A" ]} ∧ isFresh 5000 "A" s = true.
Proof. vm_compute. repeat split; reflexivity. Qed.

(** The [fetchOrders] revision tests its [loading] flag: on the same input it
    notifies an order that names no store.  An order that names a store not
    yet in [storeNames] is suspended at [await fetchStoreName] and meets the
    replaced snapshot when it resumes: it is never notified. *)
Lemma fetchOrders_flag_and_suspension :
  Notification.orderId <$> addDoc_log (runFetch emptyThenC (initial ∅ 0)) = ["C"]
  ∧ addDoc_log (runFetch emptyThenA (initial ∅ 0)) = [].
Proof. vm_compute. split; reflexivity. Qed.

(** ** Highlight expiry *)

(** C4 at its failing input ([loadOrders] revision): the poll at mount finds
    A, and the reloads that follow two status changes, at 1 s and at 2 s,
    find B and then C.  The timer of the first poll, due at 5 s, empties the
    set: C, marked at 2 s, is gone at 5 s, while the timer that was set for
    C is still pending. *)
Theorem expiry_timer_clears_later_marks :
  let s := runLoad (threeBatches confirmA) (initial ∅ 0) in
  newOrderIds s = {[ "C" ]}
  ∧ timeouts s = [(5000, ClearNewOrderIds); (6000, ClearNewOrderIds);
                  (7000, ClearNewOrderIds)]
  ∧ isFresh 4999 "C" s = true ∧ isFresh 5000 "C" s = false
  ∧ timeouts (elapse 5000 s) = [(6000, ClearNewOrderIds); (7000, ClearNewOrderIds)].
Proof. vm_compute. repeat split; reflexivity. Qed.

(** The [fetchOrders] revision deletes per identifier: when the same fetches
    follow two presses of Refresh, C stays highlighted until its own timer
    is due. *)
Lemma fetchOrders_expiry_per_identifier :
  let s := runFetch (threeBatches Refresh) (initial ∅ 0) in
  timeouts s = [(6000, DeleteNewOrderId "B"); (7000, DeleteNewOrderId "C")]
  ∧ isFresh 6000 "B" s = false ∧ isFresh 6000 "C" s = true
  ∧ isFresh 6999 "C" s = true ∧ isFresh 7000 "C" s = false.
Proof. vm_compute. repeat split; reflexivity. Qed.

(** In the [fetchOrders] revision the timer is set once the awaited write
    has returned: B, marked at 1 s with a write that takes 300 ms, stays
    highlighted until 6.3 s. *)
Lemma fetchOrders_window_follows_write :
  let s := runFetch [Effect (fetching [orderA]); Elapse 1000;
                     Refresh (fetchingSlowly [orderA; orderB])] (initial ∅ 0) in
  timeouts s = [(6300, DeleteNewOrderId "B")]
  ∧ isFresh 1000 "B" s = true ∧ isFresh 6299 "B" s = true ∧ isFresh 6300 "B" s = false.
Proof. vm_compute. repeat split; reflexivity. Qed.

(** ** What the clock does to the highlight set *)

Lemma elapse_now t s : now (elapse t s) = Z.max (now s) t.
Proof. reflexivity. Qed.

Lemma elapse_timeouts t s :
  timeouts (elapse t s) = filter (λ p, ¬ dueBy t p) (timeouts s).
Proof. reflexivity. Qed.

Lemma elapse_newOrderIds t s :
  newOrderIds (elapse t s)
  = newOrderIds (fire (merge_sort earlier (filter (dueBy t) (timeouts s))) s).
Proof. reflexivity. Qed.

(** Callbacks only ever remove identifiers. *)
Lemma fire_subset cbs s : newOrderIds (fire cbs s) ⊆ newOrderIds s.
Proof.
  unfold fire. revert s. induction cbs as [|[t cb] l IH]; intros s; cbn [foldl].
  - reflexivity.
  - etrans; [apply IH|]. destruct cb; simpl; set_solver.
Qed.

(** Once a clearing callback has run, nothing is highlighted. *)
Lemma fire_clear cbs d s :
  (d, ClearNewOrderIds) ∈ cbs → newOrderIds (fire cbs s) = ∅.
Proof.
  unfold fire. revert s. induction cbs as [|[t cb] l IH]; intros s Hin; cbn [foldl].
  - inversion Hin.
  - apply elem_of_cons in Hin as [Heq|Hin].
    + injection Heq as <- <-.
      pose proof (fire_subset l (runTimeout ClearNewOrderIds s)) as Hsub.
      unfold fire in Hsub. simpl in *. set_solver.
    + apply IH. exact Hin.
Qed.

Lemma filter_none {A} (P : A → Prop) `{∀ x, Decision (P x)} (l : list A) :
  Forall (λ x, ¬ P x) l → filter P l = [].
Proof.
  induction 1 as [|x l Hx _ IH]; [reflexivity|].
  rewrite filter_cons, decide_False by exact Hx. exact IH.
Qed.





(** The highlight set, the pending callbacks and the clock after a cycle of
    [loadOrders], in terms of the ids the cycle collects. *)
Lemma loadOrders_highlight env s :
  let s' := loadOrders env s in
  newOrderIds s'
  = (if decide (0 < size (newIdsOf env s))%nat then newIdsOf env s else newOrderIds s)
  ∧ timeouts s'
    = (if decide (0 < size (newIdsOf env s))%nat
       then timeouts s ++ [(now s + 5000, ClearNewOrderIds)] else timeouts s)
  ∧ now s' = now s.
Proof.
  cbv zeta. unfold newIdsOf. destruct (getDocs_orders env) as [L|] eqn:Hget.
  - pose proof (loadOrders_fetched env s L Hget) as H. cbv zeta in H.
    destruct H as (_ & _ & Hn & Ht & _ & _ & Hnow & _).
    rewrite Hn, Ht, Hnow. repeat split; reflexivity.
  - rewrite (loadOrders_failed env s Hget).
    rewrite decide_False by (rewrite size_empty; lia).
    repeat split; reflexivity.
Qed.













(** ** Status and payment notifications *)

Lemma onlyNewOrders_refl s : onlyNewOrders s s.
Proof. intros ty O _. reflexivity. Qed.

Lemma onlyNewOrders_trans s1 s2 s3 :
  onlyNewOrders s1 s2 → onlyNewOrders s2 s3 → onlyNewOrders s1 s3.
Proof. intros H1 H2 ty O Hty. rewrite (H2 ty O Hty). apply H1. exact Hty. Qed.

Lemma onlyNewOrders_same s s' : notifications s' = notifications s → onlyNewOrders s s'.
Proof. intros H ty O _. rewrite H. reflexivity. Qed.

Lemma loadOrders_onlyNewOrders env s : onlyNewOrders s (loadOrders env s).
Proof.
  intros ty O Hty. destruct (getDocs_orders env) as [L|] eqn:Hget.
  - destruct (loadOrders_persisted ty O env s L Hget) as (k & Hk & Hle & _).
    rewrite decide_False in Hle by (intros [? _]; contradiction).
    rewrite Hk. lia.
  - rewrite (loadOrders_failed env s Hget). reflexivity.
Qed.

Lemma fetchOrders_added_onlyNewOrders env o s :
  onlyNewOrders s (fetchOrders_added env o s).
Proof.
  intros ty O Hty. unfold fetchOrders_added.
  destruct (decide (Order.id o ∈ previousOrdersRef s)); [reflexivity|].
  unfold setTimeout. simpl. rewrite saveNotification_persisted. simpl.
  destruct (addDoc_ok env _); [|lia].
  rewrite decide_False; [lia|]. intros [? _]. congruence.
Qed.

Lemma fetchOrders_resumed_onlyNewOrders env suspended s :
  onlyNewOrders s (foldl (λ s order, fetchOrders_added env order s) s suspended).
Proof.
  revert s. induction suspended as [|o l IH]; intros s; cbn [foldl].
  - apply onlyNewOrders_refl.
  - eapply onlyNewOrders_trans; [apply (fetchOrders_added_onlyNewOrders env o)|apply IH].
Qed.

Lemma fetchOrders_changes_onlyNewOrders env names ordersData acc :
  onlyNewOrders acc.1 (foldl (fetchOrders_change env names) acc ordersData).1.
Proof.
  revert acc. induction ordersData as [|o l IH]; intros [s susp]; cbn [foldl fst].
  - apply onlyNewOrders_refl.
  - eapply onlyNewOrders_trans; [|apply IH].
    unfold fetchOrders_change. destruct (truthy _ && negb _); cbn [fst].
    + apply onlyNewOrders_same. apply fetchStoreName_frame.
    + apply fetchOrders_added_onlyNewOrders.
Qed.

Lemma fetchOrders_onlyNewOrders env s : onlyNewOrders s (fetchOrders env s).
Proof.
  unfold fetchOrders, fetchOrders_in. destruct (getDocs_orders env) as [L|].
  - set (s1 := foldl (lookupIfMissing env (storeNames s)) s (uniqueStoreIds L)).
    assert (onlyNewOrders s s1) as H1.
    { apply onlyNewOrders_same. apply storeLoop_frame. }
    assert (onlyNewOrders s1
              (if loading s then (s1, [])
               else foldl (fetchOrders_change env (storeNames s)) (s1, []) L).1) as H2.
    { destruct (loading s); [apply onlyNewOrders_refl|].
      apply (fetchOrders_changes_onlyNewOrders env (storeNames s) L (s1, [])). }
    destruct (if loading s then (s1, [])
              else foldl (fetchOrders_change env (storeNames s)) (s1, []) L)
      as [s2 suspended].
    cbn [fst] in H2.
    eapply onlyNewOrders_trans; [exact H1|].
    eapply onlyNewOrders_trans; [exact H2|].
    eapply onlyNewOrders_trans; [|apply fetchOrders_resumed_onlyNewOrders].
    apply onlyNewOrders_same. reflexivity.
  - apply onlyNewOrders_same. reflexivity.
Qed.

Lemma find_id_Some orderId (l : list Order.t) o :
  find (λ o, bool_decide (Order.id o = orderId)) l = Some o → Order.id o = orderId.
Proof.
  induction l as [|x l IH]; simpl; [discriminate|].
  destruct (bool_decide (Order.id x = orderId)) eqn:Hx.
  - intros [= <-]. apply bool_decide_eq_true in Hx. exact Hx.
  - exact IH.
Qed.

(** C6, as the code has it.  In the [loadOrders] revision a successful
    status change of a listed order, its write succeeding, adds exactly one
    [status_update] notification for that order and no [payment_update];
    a payment change does the converse.  A poll cycle of either revision adds
    no [status_update] and no [payment_update] notification, whatever it
    fetches.  In the [fetchOrders] revision the status and payment handlers
    write no notification at all. *)
Theorem admin_update_notifies_once (env : PollEnv) (s : State)
    (orderId v : string) (order : Order.t) :
  find (λ o, bool_decide (Order.id o = orderId)) (orders s) = Some order →
  (∀ n, addDoc_ok env n = true) →
  let sS := stepLoad (SetStatus true env orderId v) s in
  let sP := stepLoad (SetPayment true env orderId v) s in
  (∀ O, persisted status_update O (notifications sS)
        = (persisted status_update O (notifications s)
           + if decide (O = orderId) then 1 else 0)%nat
      ∧ persisted payment_update O (notifications sS)
        = persisted payment_update O (notifications s))
  ∧ (∀ O, persisted payment_update O (notifications sP)
          = (persisted payment_update O (notifications s)
             + if decide (O = orderId) then 1 else 0)%nat
        ∧ persisted status_update O (notifications sP)
          = persisted status_update O (notifications s))
  ∧ (∀ env' s', onlyNewOrders s' (loadOrders env' s')
                ∧ onlyNewOrders s' (fetchOrders env' s'))
  ∧ (∀ ok, addDoc_log (stepFetch (SetStatus ok env orderId v) s) = addDoc_log s
           ∧ notifications (stepFetch (SetStatus ok env orderId v) s) = notifications s
           ∧ addDoc_log (stepFetch (SetPayment ok env orderId v) s) = addDoc_log s
           ∧ notifications (stepFetch (SetPayment ok env orderId v) s) = notifications s).
Proof.
  intros Hfind Hok. cbv zeta.
  pose proof (find_id_Some _ _ _ Hfind) as Hid.
  split; [|split; [|split]].
  - intros O. simpl. unfold handleStatusUpdate.
    change (orders (set_updateDoc_log _ s)) with (orders s). rewrite Hfind.
    rewrite !(loadOrders_onlyNewOrders env _ _ O) by discriminate.
    rewrite !saveNotification_persisted, !Hok.
    change (notifications (set_updateDoc_log _ s)) with (notifications s).
    split.
    + repeat case_decide; try reflexivity; exfalso; naive_solver.
    + rewrite decide_False; [lia|]. intros [? _]. discriminate.
  - intros O. simpl. unfold handlePaymentStatusUpdate.
    change (orders (set_updateDoc_log _ s)) with (orders s). rewrite Hfind.
    rewrite !(loadOrders_onlyNewOrders env _ _ O) by discriminate.
    rewrite !saveNotification_persisted, !Hok.
    change (notifications (set_updateDoc_log _ s)) with (notifications s).
    split.
    + repeat case_decide; try reflexivity; exfalso; naive_solver.
    + rewrite decide_False; [lia|]. intros [? _]. discriminate.
  - intros env' s'. split; [apply loadOrders_onlyNewOrders|apply fetchOrders_onlyNewOrders].
  - intros [|]; simpl; repeat split; reflexivity.
Qed.

Lemma admin_update_notifies_once_witness :
  find (λ o, bool_decide (Order.id o = "A")) (orders listingA_load) = Some orderA
  ∧ (∀ n, addDoc_ok (fetching [orderA]) n = true)
  ∧ persisted status_update "A"
      (notifications (stepLoad (SetStatus true (fetching [orderA]) "A" "confirmed")
                        listingA_load))
    = (persisted status_update "A" (notifications listingA_load) + 1)%nat.
Proof.
  assert (H1 : find (λ o, bool_decide (Order.id o = "A")) (orders listingA_load)
               = Some orderA) by (vm_compute; reflexivity).
  assert (H2 : ∀ n, addDoc_ok (fetching [orderA]) n = true) by (intros n; reflexivity).
  split; [exact H1|]. split; [exact H2|].
  exact (proj1 (proj1 (admin_update_notifies_once (fetching [orderA]) listingA_load
                         "A" "confirmed" orderA H1 H2) "A")).
Defined.

(** The claim as the specification words it fails in the [fetchOrders]
    revision: [updateDeliveryStatus] writes the order and no notification. *)
Lemma status_change_without_notification :
  ¬ (∀ (step : Event → State → State), step = stepLoad ∨ step = stepFetch →
     ∀ (env : PollEnv) (s : State) (orderId v : string) (order : Order.t),
       find (λ o, bool_decide (Order.id o = orderId)) (orders s) = Some order →
       (∀ n, addDoc_ok env n = true) →
       persisted status_update orderId
         (notifications (step (SetStatus true env orderId v) s))
       = (persisted status_update orderId (notifications s) + 1)%nat).
Proof.
  intros H.
  specialize (H stepFetch (or_intror eq_refl) (fetching [orderA]) listingA_fetch
                "A" "confirmed" orderA).
  assert (persisted status_update "A"
            (notifications (stepFetch (SetStatus true (fetching [orderA]) "A" "confirmed")
                              listingA_fetch)) = 0%nat) as Hz by (vm_compute; reflexivity).
  rewrite Hz in H. clear Hz.
  assert (persisted status_update "A" (notifications listingA_fetch) = 0%nat) as Hz
    by (vm_compute; reflexivity).
  rewrite Hz in H. clear Hz.
  enough (0 = 0 + 1)%nat by lia.
  apply H; [vm_compute; reflexivity|intros n; reflexivity].
Qed.

(** ** A failed cycle *)

(** When the fetch of an interval tick fails, the snapshot, the listed
    orders, the highlight set, the store names and the collection are what
    they were before the tick, in both revisions, and the interval comes due
    again exactly one period after the failed tick. *)
Lemma failed_tick_changes_nothing (env : PollEnv) (s : State) (due : Z) :
  getDocs_orders env = None → intervalDue s = Some due →
  let sL := stepLoad (Interval env) s in
  let sF := stepFetch (Interval env) s in
  (previousOrdersRef sL = previousOrdersRef s ∧ orders sL = orders s
   ∧ storeNames sL = storeNames s ∧ notifications sL = notifications s
   ∧ newOrderIds sL = newOrderIds (elapse due s)
   ∧ intervalDue sL = Some (due + 5000))
  ∧ (previousOrdersRef sF = previousOrdersRef s ∧ orders sF = orders s
     ∧ storeNames sF = storeNames s ∧ notifications sF = notifications s
     ∧ newOrderIds sF = newOrderIds (elapse due s)
     ∧ intervalDue sF = Some (due + 60000)).
Proof.
  intros Hget Hdue. cbv zeta. unfold stepLoad, stepFetch, onInterval.
  rewrite Hdue, (loadOrders_failed env _ Hget).
  unfold fetchOrders, fetchOrders_in. rewrite Hget.
  pose proof (elapse_frame due s) as H. cbv zeta in H.
  destruct H as (Ho & _ & Hs & Hp & Hn & _).
  cbn [previousOrdersRef orders storeNames notifications newOrderIds intervalDue
       setLoading set_intervalDue].
  rewrite ?Ho, ?Hs, ?Hp, ?Hn. repeat split; reflexivity.
Qed.

(** The failure of a poll started in any other way leaves the snapshot
    alone just the same. *)
Lemma failed_poll_keeps_snapshot env s :
  getDocs_orders env = None →
  previousOrdersRef (loadOrders env s) = previousOrdersRef s
  ∧ previousOrdersRef (fetchOrders env s) = previousOrdersRef s.
Proof.
  intros Hget. rewrite (loadOrders_failed env s Hget).
  unfold fetchOrders, fetchOrders_in. rewrite Hget. split; reflexivity.
Qed.

(** ** Store names *)

Lemma loadOrders_each_lookups env names newIds s o :
  getDoc_log (loadOrders_each env names (newIds, s) o).2
  = getDoc_log s ++ lookupsOf names [o].
Proof.
  unfold lookupsOf. rewrite filter_cons, filter_nil.
  assert (∀ x, getDoc_log (saveNotification env o new_order (newOrderMessage o) x)
               = getDoc_log x) as Hsave.
  { intros x. apply saveNotification_frame. }
  destruct (truthy (Order.storeId o) && negb (hasStoreName names (Order.storeId o)))
    eqn:Hneed.
  - rewrite decide_True by reflexivity.
    unfold loadOrders_each. rewrite Hneed.
    repeat case_decide; cbn [snd]; unfold fetchStoreName;
      destruct (getDoc_store env _); simpl; rewrite ?Hsave; reflexivity.
  - rewrite decide_False by discriminate.
    unfold loadOrders_each. rewrite Hneed.
    repeat case_decide; cbn [snd]; simpl; rewrite ?Hsave, app_nil_r; reflexivity.
Qed.

Lemma lookupsOf_cons names o L : lookupsOf names (o :: L) = lookupsOf names [o] ++ lookupsOf names L.
Proof.
  unfold lookupsOf. rewrite !filter_cons, filter_nil.
  case_decide; reflexivity.
Qed.

Lemma loadOrders_fold_lookups env names ordersData acc :
  getDoc_log (foldl (loadOrders_each env names) acc ordersData).2
  = getDoc_log acc.2 ++ lookupsOf names ordersData.
Proof.
  revert acc. induction ordersData as [|o L IH]; intros [newIds s]; cbn [foldl snd].
  - unfold lookupsOf. rewrite filter_nil. simpl. rewrite app_nil_r. reflexivity.
  - rewrite IH. destruct (loadOrders_each env names (newIds, s) o) as [n1 s1] eqn:Heq.
    pose proof (loadOrders_each_lookups env names newIds s o) as H.
    rewrite Heq in H. cbn [snd] in *. rewrite H, (lookupsOf_cons names o L), app_assoc.
    reflexivity.
Qed.

Lemma loadOrders_in_lookups names env s ordersData :
  getDocs_orders env = Some ordersData →
  getDoc_log (loadOrders_in names env s) = getDoc_log s ++ lookupsOf names ordersData.
Proof.
  intros Hget. unfold loadOrders_in. rewrite Hget.
  pose proof (loadOrders_fold_lookups env names ordersData (∅, s)) as H.
  destruct (foldl (loadOrders_each env names) (∅, s) ordersData) as [newIds s1].
  cbn [snd] in H. destruct (decide (0 < size newIds)%nat); simpl; exact H.
Qed.

Lemma loadOrders_lookups env s ordersData :
  getDocs_orders env = Some ordersData →
  getDoc_log (loadOrders env s) = getDoc_log s ++ lookupsOf (storeNames s) ordersData.
Proof. apply loadOrders_in_lookups. Qed.

Lemma lookupsOf_elem names ordersData x :
  x ∈ lookupsOf names ordersData
  ↔ x ≠ "" ∧ hasStoreName names x = false ∧ ∃ o, o ∈ ordersData ∧ Order.storeId o = x.
Proof.
  unfold lookupsOf. rewrite list_elem_of_fmap. split.
  - intros (o & -> & Ho). apply list_elem_of_filter in Ho as [Hg Ho].
    apply andb_true_iff in Hg as [Ht Hn]. apply negb_true_iff in Hn.
    unfold truthy in Ht. apply bool_decide_eq_true in Ht.
    split; [exact Ht|]. split; [exact Hn|]. exists o. split; [exact Ho|reflexivity].
  - intros (Hx & Hn & o & Ho & <-). exists o. split; [reflexivity|].
    apply list_elem_of_filter. split; [|exact Ho].
    rewrite Hn. unfold truthy. rewrite bool_decide_eq_true_2 by exact Hx. reflexivity.
Qed.

(** C8: [fetchStoreName] issues exactly one [getDoc].  When the store
    exists its name is in [storeNames] under the id and is returned.  When
    the store is missing or the lookup fails, [null] is returned and
    [storeNames] is what it was: nothing records the failure.  A later call
    issues the [getDoc] again; and a later cycle of [loadOrders] calls it
    for exactly the non-empty store ids of the fetched orders under which
    the [storeNames] that its callback closed over holds nothing truthy,
    the id of the failed lookup among them when the object holds nothing
    truthy under it. *)
Theorem store_name_resolution (look : string → StoreLookup) (storeId : string)
    (s : State) :
  let r := fetchStoreName look storeId s in
  getDoc_log r.2 = getDoc_log s ++ [storeId]
  ∧ match look storeId with
    | StoreFound name =>
        r.1 = Some name ∧ storeNames r.2 !! storeId = Some name
        ∧ (∀ other, other ≠ storeId → storeNames r.2 !! other = storeNames s !! other)
    | StoreMissing | StoreError =>
        r.1 = None ∧ storeNames r.2 = storeNames s
        ∧ (∀ look', getDoc_log (fetchStoreName look' storeId r.2).2
                    = getDoc_log r.2 ++ [storeId])
        ∧ ∀ names env ordersData s',
            getDocs_orders env = Some ordersData →
            ∃ more, getDoc_log (loadOrders_in names env s') = getDoc_log s' ++ more
                    ∧ (∀ x, x ∈ more
                            ↔ x ≠ "" ∧ hasStoreName names x = false
                              ∧ ∃ o, o ∈ ordersData ∧ Order.storeId o = x)
                    ∧ (hasStoreName names storeId = false → storeId ≠ "" →
                       (∃ o, o ∈ ordersData ∧ Order.storeId o = storeId) →
                       storeId ∈ more)
    end.
Proof.
  cbv zeta.
  assert (∀ names env ordersData s',
            getDocs_orders env = Some ordersData →
            ∃ more, getDoc_log (loadOrders_in names env s') = getDoc_log s' ++ more
                    ∧ (∀ x, x ∈ more
                            ↔ x ≠ "" ∧ hasStoreName names x = false
                              ∧ ∃ o, o ∈ ordersData ∧ Order.storeId o = x)
                    ∧ (hasStoreName names storeId = false → storeId ≠ "" →
                       (∃ o, o ∈ ordersData ∧ Order.storeId o = storeId) →
                       storeId ∈ more)) as Hretry.
  { intros names env L s' Hget.
    exists (lookupsOf names L). split; [apply loadOrders_in_lookups; exact Hget|].
    split; [intros x; apply lookupsOf_elem|].
    intros Hmiss Hne Ho. apply lookupsOf_elem. split; [exact Hne|]. split; assumption. }
  assert (∀ look' s', getDoc_log (fetchStoreName look' storeId s').2
                      = getDoc_log s' ++ [storeId]) as Hcall.
  { intros look' s'. unfold fetchStoreName. destruct (look' storeId); reflexivity. }
  split; [apply Hcall|]. unfold fetchStoreName.
  destruct (look storeId) as [name| |]; simpl.
  - split; [reflexivity|]. split.
    + apply lookup_insert_eq.
    + intros other Hne. apply lookup_insert_ne. congruence.
  - split; [reflexivity|]. split; [reflexivity|].
    split; [intros look'; apply Hcall|exact Hretry].
  - split; [reflexivity|]. split; [reflexivity|].
    split; [intros look'; apply Hcall|exact Hretry].
Qed.

Lemma store_name_resolution_witness :
  getDocs_orders (fetching [orderA]) = Some [orderA]
  ∧ hasStoreName (storeNames (fetchStoreName (λ _, StoreMissing) "s1" (initial ∅ 0)).2) "s1"
    = false
  ∧ "s1" ≠ ""
  ∧ (∃ o, o ∈ [orderA] ∧ Order.storeId o = "s1")
  ∧ ∃ more,
      getDoc_log (loadOrders (fetching [orderA])
                    (fetchStoreName (λ _, StoreMissing) "s1" (initial ∅ 0)).2)
      = getDoc_log (fetchStoreName (λ _, StoreMissing) "s1" (initial ∅ 0)).2 ++ more
      ∧ "s1" ∈ more.
Proof.
  assert (H1 : getDocs_orders (fetching [orderA]) = Some [orderA]) by reflexivity.
  assert (H2 : hasStoreName
                 (storeNames (fetchStoreName (λ _, StoreMissing) "s1" (initial ∅ 0)).2)
                 "s1" = false) by reflexivity.
  assert (H3 : "s1" ≠ "") by discriminate.
  assert (H4 : ∃ o, o ∈ [orderA] ∧ Order.storeId o = "s1")
    by (exists orderA; split; [apply list_elem_of_singleton|]; reflexivity).
  repeat (split; [assumption|]).
  pose proof (store_name_resolution (λ _, StoreMissing) "s1" (initial ∅ 0)) as H.
  cbv zeta beta iota in H. destruct H as (_ & _ & _ & _ & Hretry).
  destruct (Hretry (storeNames (fetchStoreName (λ _, StoreMissing) "s1" (initial ∅ 0)).2)
              (fetching [orderA]) [orderA]
              (fetchStoreName (λ _, StoreMissing) "s1" (initial ∅ 0)).2 H1)
    as (more & Hlog & _ & Hin).
  exists more. split; [exact Hlog|exact (Hin H2 H3 H4)].
Defined.

(** ** The inbox *)

Lemma size_filter_to_list {A} (P : string * A → Prop) `{∀ x, Decision (P x)}
    (m : gmap string A) :
  size (filter P m) = length (filter P (map_to_list m)).
Proof.
  induction m as [|i x m Hi IH] using map_ind.
  - rewrite map_filter_empty, map_to_list_empty. reflexivity.
  - rewrite (map_to_list_insert m i x Hi), filter_cons.
    destruct (decide (P (i, x))) as [HP|HP].
    + rewrite map_filter_insert_True by exact HP.
      rewrite map_size_insert_None by (apply map_lookup_filter_None; left; exact Hi).
      simpl. rewrite IH. reflexivity.
    + rewrite map_filter_insert_not'; [exact IH|exact HP|].
      intros y Hy. rewrite Hi in Hy. discriminate.
Qed.

#[global] Instance recent_trans : Transitive recent.
Proof. intros a b c. unfold recent. lia. Qed.

#[global] Instance recent_total : Total recent.
Proof. intros a b. unfold recent. lia. Qed.

(** In a feed sorted most recent first, a record among the first [k] has
    fewer than [k] records strictly more recent than itself. *)
Lemma sorted_take_later (l : list (string * Notification.t)) k x :
  StronglySorted recent l → x ∈ take k l →
  (length (filter (laterThan x.2) l) < k)%nat.
Proof.
  intros Hs. revert k. induction Hs as [|a l Hs IH Hall]; intros k Hin.
  - rewrite take_nil in Hin. inversion Hin.
  - destruct k as [|k]; [inversion Hin|].
    cbn [take] in Hin. apply elem_of_cons in Hin as [->|Hin].
    + rewrite filter_cons, decide_False by (unfold laterThan; lia).
      rewrite filter_none; [simpl; lia|].
      eapply Forall_impl; [exact Hall|]. intros y Hy. unfold recent, laterThan in *. lia.
    + specialize (IH k Hin). rewrite filter_cons. case_decide; simpl; lia.
Qed.

Lemma markAsRead_present ok id coll n :
  coll !! id = Some n →
  markAsRead ok id coll = if ok then <[id := setRead n]> coll else coll.
Proof. intros H. unfold markAsRead, updateDoc_read. rewrite H. reflexivity. Qed.

(** No write of the repository takes a record out of the read state. *)
Lemma write_keeps_read w coll id n :
  coll !! id = Some n → Notification.read n = true →
  ∃ n', write w coll !! id = Some n' ∧ Notification.read n' = true.
Proof.
  intros Hn Hr. destruct w as [m|ok j]; simpl.
  - exists n. split; [apply addDoc_lookup_old; exact Hn|exact Hr].
  - unfold markAsRead. destruct ok; [|exists n; split; assumption].
    unfold updateDoc_read. destruct (coll !! j) as [m|] eqn:Hj; simpl;
      [|exists n; split; assumption].
    destruct (decide (j = id)) as [->|Hne].
    + exists (setRead m). rewrite lookup_insert_eq. split; reflexivity.
    + exists n. rewrite lookup_insert_ne by exact Hne. split; assumption.
Qed.

Lemma writes_keep_read ws coll id n :
  coll !! id = Some n → Notification.read n = true →
  ∃ n', foldl (flip write) coll ws !! id = Some n' ∧ Notification.read n' = true.
Proof.
  revert coll n. induction ws as [|w ws IH]; intros coll n Hn Hr; cbn [foldl flip].
  - exists n. split; assumption.
  - destruct (write_keeps_read w coll id n Hn Hr) as (n1 & Hn1 & Hr1).
    exact (IH _ n1 Hn1 Hr1).
Qed.

Lemma unread_after_setRead (coll : gmap string Notification.t) id n :
  coll !! id = Some n →
  size (filter unread (<[id := setRead n]> coll))
  = (size (filter unread coll) - if Notification.read n then 0 else 1)%nat.
Proof.
  intros Hn. rewrite map_filter_insert_False by (unfold unread; simpl; discriminate).
  rewrite map_filter_delete, map_size_delete.
  destruct (Notification.read n) eqn:Hr.
  - rewrite (proj2 (map_lookup_filter_None unread coll id)); [simpl; lia|].
    right. intros y Hy. rewrite Hn in Hy. injection Hy as <-.
    unfold unread. simpl. rewrite Hr. discriminate.
  - rewrite (proj2 (map_lookup_filter_Some unread coll id n)); [simpl; lia|].
    split; [exact Hn|exact Hr].
Qed.

(** C9: a successful [markAsRead] sets the [read] flag of the record it
    names and changes nothing else, in that record or in any other; the
    number of unread records drops by one if the record was unread.  A
    second [markAsRead], and a click on the record once read, change
    nothing, whether or not the second write succeeds: two calls amount to
    one call that succeeds if either does.  No later write of the repository
    makes the record unread again. *)
Theorem markAsRead_idempotent (coll : gmap string Notification.t) (id : string)
    (n : Notification.t) :
  coll !! id = Some n →
  let c1 := markAsRead true id coll in
  c1 !! id = Some (setRead n)
  ∧ (∀ j, j ≠ id → c1 !! j = coll !! j)
  ∧ size (filter unread c1)
    = (size (filter unread coll) - if Notification.read n then 0 else 1)%nat
  ∧ (∀ ok, markAsRead ok id c1 = c1)
  ∧ (∀ ok1 ok2, markAsRead ok2 id (markAsRead ok1 id coll) = markAsRead (ok1 || ok2) id coll)
  ∧ (∀ ok, handleNotificationClick ok (id, setRead n) c1 = c1)
  ∧ (∀ ws, ∃ n', foldl (flip write) c1 ws !! id = Some n'
                 ∧ Notification.read n' = true).
Proof.
  intros Hn. cbv zeta. rewrite (markAsRead_present true id coll n Hn).
  assert (Hc1 : <[id := setRead n]> coll !! id = Some (setRead n))
    by apply lookup_insert_eq.
  split; [exact Hc1|]. split; [|split; [|split; [|split; [|split]]]].
  - intros j Hj. apply lookup_insert_ne. congruence.
  - apply unread_after_setRead. exact Hn.
  - intros ok. rewrite (markAsRead_present ok id _ _ Hc1).
    destruct ok; [|reflexivity]. rewrite insert_insert_eq. reflexivity.
  - intros [|] ok2; cbn [orb].
    + rewrite (markAsRead_present true id coll n Hn).
      rewrite (markAsRead_present ok2 id _ _ Hc1).
      destruct ok2; [|reflexivity]. rewrite insert_insert_eq. reflexivity.
    + rewrite (markAsRead_present false id coll n Hn). reflexivity.
  - intros ok. reflexivity.
  - intros ws. apply (writes_keep_read ws _ id (setRead n) Hc1). reflexivity.
Qed.

(** C10: the inbox counts unread records among the 50 most recent ones
    only.  An unread record with at least 50 strictly more recent records
    in the collection is not in the feed, so the count shown is below the
    number of unread records in the collection; it never exceeds 50. *)
Theorem unread_count_over_latest_fifty (coll : gmap string Notification.t)
    (id : string) (n : Notification.t) :
  coll !! id = Some n → Notification.read n = false →
  (50 ≤ size (filter (laterThan n) coll))%nat →
  ((id, n) ∉ listNotifications coll)
  ∧ (unreadCount (listNotifications coll) < size (filter unread coll))%nat
  ∧ (unreadCount (listNotifications coll) ≤ 50)%nat.
Proof.
  intros Hn Hr Hlater. unfold listNotifications, unreadCount.
  set (sorted := merge_sort recent (map_to_list coll)).
  assert (Hperm : sorted ≡ₚ map_to_list coll) by apply merge_sort_Permutation.
  pose proof (StronglySorted_merge_sort recent (map_to_list coll)) as Hsorted.
  fold sorted in Hsorted.
  assert (Hout : (id, n) ∉ take 50 sorted).
  { intros Hin. pose proof (sorted_take_later sorted 50 (id, n) Hsorted Hin) as Hlt.
    rewrite Hperm, <- size_filter_to_list in Hlt. simpl in Hlt. lia. }
  split; [exact Hout|]. split.
  - rewrite (size_filter_to_list unread coll), <- Hperm.
    rewrite <- (take_drop 50 sorted) at 2. rewrite filter_app, length_app.
    assert ((id, n) ∈ drop 50 sorted) as Hdrop.
    { assert ((id, n) ∈ sorted) as Hin
        by (rewrite Hperm; apply elem_of_map_to_list; exact Hn).
      rewrite <- (take_drop 50 sorted) in Hin.
      apply elem_of_app in Hin as [Hin|Hin]; [contradiction|exact Hin]. }
    assert ((id, n) ∈ filter unread (drop 50 sorted)) as Hf
      by (apply list_elem_of_filter; split; [exact Hr|exact Hdrop]).
    destruct (filter unread (drop 50 sorted)); [inversion Hf|simpl; lia].
  - etrans; [apply length_filter|]. rewrite length_take. lia.
Qed.

Lemma markAsRead_idempotent_witness :
  backlog !! "7" = Some (backlogRecord 7)
  ∧ markAsRead true "7" backlog !! "7" = Some (setRead (backlogRecord 7))
  ∧ (∀ ok, markAsRead ok "7" (markAsRead true "7" backlog) = markAsRead true "7" backlog).
Proof.
  assert (H1 : backlog !! "7" = Some (backlogRecord 7)) by (vm_compute; reflexivity).
  split; [exact H1|].
  pose proof (markAsRead_idempotent backlog "7" (backlogRecord 7) H1) as H.
  cbv zeta in H. destruct H as (Ha & _ & _ & Hb & _).
  split; [exact Ha|exact Hb].
Defined.

Lemma unread_count_over_latest_fifty_witness :
  backlog !! "0" = Some (backlogRecord 0)
  ∧ Notification.read (backlogRecord 0) = false
  ∧ (50 ≤ size (filter (laterThan (backlogRecord 0)) backlog))%nat
  ∧ (unreadCount (listNotifications backlog) < size (filter unread backlog))%nat.
Proof.
  assert (H1 : backlog !! "0" = Some (backlogRecord 0)) by (vm_compute; reflexivity).
  assert (H2 : Notification.read (backlogRecord 0) = false) by reflexivity.
  assert (H3 : (50 ≤ size (filter (laterThan (backlogRecord 0)) backlog))%nat)
    by (apply Nat.leb_le; vm_compute; reflexivity).
  repeat (split; [assumption|]).
  exact (proj1 (proj2 (unread_count_over_latest_fifty backlog "0" (backlogRecord 0)
                         H1 H2 H3))).
Defined.

(** ** Search and filters *)

Lemma prefix_refl s : String.prefix s s = true.
Proof.
  induction s as [|a s IH]; [reflexivity|]. simpl.
  destruct (Ascii.ascii_dec a a) as [_|Hne]; [exact IH|contradiction].
Qed.

Lemma includes_refl s : includes s s = true.
Proof. destruct s; cbn [includes]; rewrite prefix_refl; reflexivity. Qed.

(** X1: what the list shows is a sublist of the loaded orders, in their
    order; the suggestions are the first matches of the search, five at
    most, whatever the drop-downs say. *)
Theorem filtered_orders_sublist (toLowerCase trim : string → string)
    (orders : list Order.t) (names : gmap string string) (f : Filters) :
  let r := filterEffect toLowerCase trim orders names f in
  r.2 `sublist_of` orders
  ∧ r.1 `sublist_of` orders
  ∧ (length r.1 ≤ 5)%nat
  ∧ (length r.2 ≤ length orders)%nat
  ∧ r.1 = (filterEffect toLowerCase trim orders names
             (mkFilters (searchQuery f) (showSuggestions f) "all" "all")).1
  ∧ r.1 `prefix_of`
      (filterEffect toLowerCase trim orders names
         (mkFilters (searchQuery f) (showSuggestions f) "all" "all")).2.
Proof.
  cbv zeta. unfold filterEffect. simpl.
  set (searched := filter (λ o, matchesSearch toLowerCase names
                                  (toLowerCase (searchQuery f)) o = true) orders).
  assert (Hs : searched `sublist_of` orders) by apply sublist_filter.
  assert (Hmain :
    (if bool_decide (paymentStatusFilter f ≠ "all")
     then filter (λ o, Order.paymentStatus o = paymentStatusFilter f)
            (if bool_decide (orderStatusFilter f ≠ "all")
             then filter (λ o, Order.status o = orderStatusFilter f)
                    (if bool_decide (trim (searchQuery f) ≠ "") then searched else orders)
             else if bool_decide (trim (searchQuery f) ≠ "") then searched else orders)
     else if bool_decide (orderStatusFilter f ≠ "all")
          then filter (λ o, Order.status o = orderStatusFilter f)
                 (if bool_decide (trim (searchQuery f) ≠ "") then searched else orders)
          else if bool_decide (trim (searchQuery f) ≠ "") then searched else orders)
    `sublist_of` orders).
  { repeat case_bool_decide;
      repeat (etrans; [apply sublist_filter|]); try exact Hs; reflexivity. }
  destruct (bool_decide (trim (searchQuery f) ≠ "")); cbn [fst snd].
  - split; [exact Hmain|]. split; [etrans; [apply sublist_take|exact Hs]|].
    split; [rewrite length_take; lia|]. split; [apply sublist_length; exact Hmain|].
    split; [reflexivity|]. apply prefix_take.
  - split; [exact Hmain|]. split; [apply sublist_nil_l|].
    split; [simpl; lia|]. split; [apply sublist_length; exact Hmain|].
    split; [reflexivity|]. apply prefix_nil.
Qed.

Lemma filterEffect_elem (toLowerCase trim : string → string)
    (orders : list Order.t) (names : gmap string string) (f : Filters) (o : Order.t) :
  o ∈ (filterEffect toLowerCase trim orders names f).2
  ↔ o ∈ orders ∧ passesStatus f o
    ∧ (trim (searchQuery f) = ""
       ∨ matchesSearch toLowerCase names (toLowerCase (searchQuery f)) o = true).
Proof.
  unfold filterEffect, passesStatus.
  destruct (decide (trim (searchQuery f) = "")) as [Ht|Ht].
  - rewrite (bool_decide_eq_false_2 _ (λ H, H Ht)).
    repeat case_bool_decide; cbn [fst snd]; rewrite ?list_elem_of_filter; naive_solver.
  - rewrite (bool_decide_eq_true_2 _ Ht).
    repeat case_bool_decide; cbn [fst snd]; rewrite ?list_elem_of_filter; naive_solver.
Qed.

Lemma lookupThrows_inherited names order :
  lookupThrows names order = true
  ↔ names !! Order.storeId order = None ∧ inherited (Order.storeId order) = true.
Proof.
  unfold lookupThrows, getProperty.
  destruct (names !! Order.storeId order);
    [split; [discriminate|intros [? _]; discriminate]|].
  destruct (inherited (Order.storeId order)); [tauto|].
  split; [discriminate|intros [_ ?]; discriminate].
Qed.

(** X2: when the effect runs to its end, an order is listed exactly when it
    is loaded, passes both drop-downs and, if the search box holds more
    than blanks, has the lower-cased input in its lower-cased number,
    customer name or store name.  The effect throws instead exactly when
    the search box holds more than blanks and the store id of some loaded
    order, without a stored name, names a property that [storeNames]
    inherits. *)
Theorem filtered_orders_membership (toLowerCase trim : string → string)
    (orders : list Order.t) (names : gmap string string) (f : Filters) (o : Order.t) :
  match runFilterEffect toLowerCase trim orders names f with
  | Some r =>
      (trim (searchQuery f) = "" ∨ Forall (λ x, lookupThrows names x = false) orders)
      ∧ (o ∈ r.2
         ↔ o ∈ orders ∧ passesStatus f o
           ∧ (trim (searchQuery f) = ""
              ∨ matchesSearch toLowerCase names (toLowerCase (searchQuery f)) o = true))
  | None =>
      trim (searchQuery f) ≠ ""
      ∧ ∃ x, x ∈ orders ∧ names !! Order.storeId x = None
             ∧ inherited (Order.storeId x) = true
  end.
Proof.
  unfold runFilterEffect.
  destruct (decide (trim (searchQuery f) = "")) as [Ht|Ht].
  - rewrite (bool_decide_eq_false_2 _ (λ H, H Ht)). cbn [andb].
    split; [left; exact Ht|apply filterEffect_elem].
  - rewrite (bool_decide_eq_true_2 _ Ht). cbn [andb].
    destruct (existsb (lookupThrows names) orders) eqn:Hex.
    + split; [exact Ht|]. apply existsb_exists in Hex as (x & Hx & Hthrow).
      exists x. split; [apply list_elem_of_In; exact Hx|].
      apply lookupThrows_inherited. exact Hthrow.
    + split; [|apply filterEffect_elem]. right. apply Forall_forall. intros x Hx.
      destruct (lookupThrows names x) eqn:Hthrow; [|reflexivity].
      assert (existsb (lookupThrows names) orders = true) as Hyes
        by (apply existsb_exists; exists x; split;
            [apply list_elem_of_In; exact Hx|exact Hthrow]).
      congruence.
Qed.

(** X3: after "clear all filters" every loaded order is listed, nothing is
    suggested and no filter counts as active; this rests on [trim] leaving
    the empty string empty. *)
Theorem clearAllFilters_lists_everything (toLowerCase trim : string → string)
    (orders : list Order.t) (names : gmap string string) (f : Filters) :
  trim "" = "" →
  filterEffect toLowerCase trim orders names (clearAllFilters f) = ([], orders)
  ∧ hasActiveFilters (clearAllFilters f) = false.
Proof.
  intros Ht. unfold filterEffect, clearAllFilters, hasActiveFilters. simpl.
  rewrite Ht. split; reflexivity.
Qed.

Lemma clearAllFilters_lists_everything_witness :
  asIs "" = ""
  ∧ filterEffect asIs asIs [orderA; orderD] ∅
      (clearAllFilters (mkFilters "asha" true "confirmed" "paid"))
    = ([], [orderA; orderD]).
Proof.
  assert (H : asIs "" = "") by reflexivity.
  split; [exact H|].
  exact (proj1 (clearAllFilters_lists_everything asIs asIs [orderA; orderD] ∅
                  (mkFilters "asha" true "confirmed" "paid") H)).
Defined.

(** X4: a click on a suggestion puts the order's number in the search box.
    When no loaded order makes the store-name lookup throw, the effect
    then runs to its end and the order itself stays listed whenever the
    drop-downs let it through. *)
Theorem suggestion_click_keeps_order (toLowerCase trim : string → string)
    (orders : list Order.t) (names : gmap string string) (f : Filters) (o : Order.t) :
  o ∈ orders → passesStatus f o →
  Forall (λ x, lookupThrows names x = false) orders →
  searchQuery (handleSuggestionClick o f) = Order.orderNumber o
  ∧ ∃ r, runFilterEffect toLowerCase trim orders names (handleSuggestionClick o f)
         = Some r
         ∧ o ∈ r.2.
Proof.
  intros Hin Hpass Hsafe. split; [reflexivity|].
  exists (filterEffect toLowerCase trim orders names (handleSuggestionClick o f)).
  split.
  - unfold runFilterEffect.
    replace (existsb (lookupThrows names) orders) with false;
      [rewrite andb_false_r; reflexivity|].
    symmetry. apply not_true_is_false. intros Hex.
    apply existsb_exists in Hex as (x & Hx & Hthrow).
    rewrite Forall_forall in Hsafe.
    rewrite (Hsafe x) in Hthrow by (apply list_elem_of_In; exact Hx). discriminate.
  - apply filterEffect_elem. split; [exact Hin|]. split; [exact Hpass|].
    right. unfold matchesSearch. simpl. rewrite includes_refl. reflexivity.
Qed.

Lemma suggestion_click_keeps_order_witness :
  orderD ∈ [orderA; orderD]
  ∧ passesStatus (mkFilters "de" true "confirmed" "all") orderD
  ∧ Forall (λ x, lookupThrows ∅ x = false) [orderA; orderD]
  ∧ ∃ r, runFilterEffect asIs asIs [orderA; orderD] ∅
           (handleSuggestionClick orderD (mkFilters "de" true "confirmed" "all"))
         = Some r
         ∧ orderD ∈ r.2.
Proof.
  assert (H1 : orderD ∈ [orderA; orderD])
    by (apply elem_of_cons; right; apply list_elem_of_singleton; reflexivity).
  assert (H2 : passesStatus (mkFilters "de" true "confirmed" "all") orderD)
    by (split; [right; reflexivity|left; reflexivity]).
  assert (H3 : Forall (λ x, lookupThrows ∅ x = false) [orderA; orderD])
    by (repeat constructor).
  split; [exact H1|]. split; [exact H2|]. split; [exact H3|].
  exact (proj2 (suggestion_click_keeps_order asIs asIs [orderA; orderD] ∅
                  (mkFilters "de" true "confirmed" "all") orderD H1 H2 H3)).
Defined.

(** ** Relative dates *)

(** X5: the label by age.  A date in the future or less than a minute old
    reads "Just now"; then whole minutes from 1 to 59, whole hours from 1 to
    23, whole days from 1 to 6; from seven days on the locale date is
    shown. *)
Theorem formatDate_by_age (localeDate : Z → Z → string) (date now : Z) :
  let age := now - date in
  (age < 60000 → formatDate localeDate date now = "Just now")
  ∧ (60000 ≤ age < 3600000 →
     formatDate localeDate date now = pretty (age / 60000) +:+ "m ago"
     ∧ 1 ≤ age / 60000 ≤ 59)
  ∧ (3600000 ≤ age < 86400000 →
     formatDate localeDate date now = pretty (age / 3600000) +:+ "h ago"
     ∧ 1 ≤ age / 3600000 ≤ 23)
  ∧ (86400000 ≤ age < 604800000 →
     formatDate localeDate date now = pretty (age / 86400000) +:+ "d ago"
     ∧ 1 ≤ age / 86400000 ≤ 6)
  ∧ (604800000 ≤ age → formatDate localeDate date now = localeDate date now).
Proof.
  cbv zeta. unfold formatDate.
  assert (Hh : (now - date) / 60000 / 60 = (now - date) / 3600000)
    by (rewrite Z.div_div by lia; reflexivity).
  assert (Hd : (now - date) / 60000 / 60 / 24 = (now - date) / 86400000)
    by (rewrite !Z.div_div by lia; reflexivity).
  rewrite Hd, Hh.
  split; [|split; [|split; [|split]]]; intros Hage;
    repeat case_decide; try split; try reflexivity;
    try (exfalso; Z.to_euclidean_division_equations; lia);
    try (Z.to_euclidean_division_equations; lia).
Qed.

Lemma formatDate_by_age_witness :
  (1000 - 5000 < 60000 ∧ formatDate (λ _ _, "7 Jan") 5000 1000 = "Just now")
  ∧ (3600000 ≤ 7300000 - 0 < 86400000
     ∧ formatDate (λ _ _, "7 Jan") 0 7300000 = "2h ago").
Proof.
  assert (H1 : 1000 - 5000 < 60000) by lia.
  assert (H2 : 3600000 ≤ 7300000 - 0 < 86400000) by lia.
  split; split; [exact H1| |exact H2|].
  - exact (proj1 (formatDate_by_age (λ _ _, "7 Jan") 5000 1000) H1).
  - exact (proj1 (proj1 (proj2 (proj2 (formatDate_by_age (λ _ _, "7 Jan") 0 7300000))) H2)).
Defined.

(** ** Runs as sequences of moves *)

Lemma stepLoad_moves e s : stepLoad e s = moves (movesLoad e s) s.
Proof.
  destruct e as [dt|env|env|env|[] env i v|[] env i v]; try reflexivity.
  - unfold stepLoad, onInterval, movesLoad, tickMoves, moves.
    destruct (intervalDue s); reflexivity.
  - unfold stepLoad, handleStatusUpdate, movesLoad, saveMoves, moves. cbn.
    destruct (find _ (orders s)); reflexivity.
  - unfold stepLoad, handlePaymentStatusUpdate, movesLoad, saveMoves, moves. cbn.
    destruct (find _ (orders s)); reflexivity.
Qed.

Lemma stepFetch_moves e s : stepFetch e s = moves (movesFetch e s) s.
Proof.
  destruct e as [dt|env|env|env|[] env i v|[] env i v]; try reflexivity.
  unfold stepFetch, onInterval, movesFetch, tickMoves, moves.
  destruct (intervalDue s); reflexivity.
Qed.

Lemma movesLoad_loadMove e s : Forall loadMove (movesLoad e s).
Proof.
  destruct e as [dt|env|env|env|[] env i v|[] env i v]; simpl;
    unfold tickMoves, saveMoves;
    repeat match goal with |- context [match ?x with _ => _ end] => destruct x end;
    repeat constructor.
Qed.

Lemma movesFetch_fetchMove e s : Forall fetchMove (movesFetch e s).
Proof.
  destruct e as [dt|env|env|env|[] env i v|[] env i v]; simpl;
    unfold tickMoves;
    repeat match goal with |- context [match ?x with _ => _ end] => destruct x end;
    repeat constructor.
Qed.

Lemma moves_invariant (allowed : Move → Prop) (P : State → Prop) :
  (∀ m s, allowed m → P s → P (move m s)) →
  ∀ ms s, Forall allowed ms → P s → P (moves ms s).
Proof.
  intros Hstep ms. unfold moves.
  induction ms as [|m ms IH]; intros s Hall HP; cbn [foldl flip]; [exact HP|].
  apply Forall_cons in Hall as [Hm Hall]. apply IH; [exact Hall|].
  apply Hstep; assumption.
Qed.

(** A property that every move of the [loadOrders] revision keeps holds
    throughout its runs. *)
Lemma runLoad_invariant (P : State → Prop) :
  (∀ m s, loadMove m → P s → P (move m s)) →
  ∀ evs s, P s → P (runLoad evs s).
Proof.
  intros Hstep evs. unfold runLoad.
  induction evs as [|e evs IH]; intros s HP; cbn [foldl flip]; [exact HP|].
  apply IH. rewrite stepLoad_moves.
  apply (moves_invariant loadMove P Hstep); [apply movesLoad_loadMove|exact HP].
Qed.

Lemma runFetch_invariant (P : State → Prop) :
  (∀ m s, fetchMove m → P s → P (move m s)) →
  ∀ evs s, P s → P (runFetch evs s).
Proof.
  intros Hstep evs. unfold runFetch.
  induction evs as [|e evs IH]; intros s HP; cbn [foldl flip]; [exact HP|].
  apply IH. rewrite stepFetch_moves.
  apply (moves_invariant fetchMove P Hstep); [apply movesFetch_fetchMove|exact HP].
Qed.

(** ** One cycle of [fetchOrders], in closed form *)

Lemma cycleEffect_none env s s' :
  previousOrdersRef s' = previousOrdersRef s → now s' = now s →
  orders s' = orders s → loading s' = loading s →
  intervalDue s' = intervalDue s → updateDoc_log s' = updateDoc_log s →
  newOrderIds s' = newOrderIds s → addDoc_log s' = addDoc_log s →
  notifications s' = notifications s → timeouts s' = timeouts s →
  cycleEffect env s s' [].
Proof.
  intros. unfold cycleEffect, addDocs. simpl.
  rewrite !app_nil_r, union_empty_r_L. repeat split; assumption.
Qed.

Lemma cycleEffect_app env s1 s2 s3 m1 m2 :
  cycleEffect env s1 s2 m1 → cycleEffect env s2 s3 m2 →
  cycleEffect env s1 s3 (m1 ++ m2).
Proof.
  intros (Hp1 & Hn1 & Ho1 & Hl1 & Hi1 & Hu1 & Hh1 & Ha1 & Hc1 & Ht1)
         (Hp2 & Hn2 & Ho2 & Hl2 & Hi2 & Hu2 & Hh2 & Ha2 & Hc2 & Ht2).
  unfold cycleEffect. rewrite Hn1 in *.
  rewrite Hp2, Hn2, Ho2, Hl2, Hi2, Hu2, Hh2, Ha2, Hc2, Ht2.
  rewrite Hh1, Ha1, Hc1, Ht1. rewrite !fmap_app, addDocs_app, !app_assoc.
  rewrite list_to_set_app_L. repeat split; try assumption. set_solver.
Qed.

Lemma addDocs_single env n coll :
  addDocs env [n] coll = if addDoc_ok env n then addDoc n coll else coll.
Proof.
  unfold addDocs. rewrite filter_cons, filter_nil.
  destruct (addDoc_ok env n); [rewrite decide_True by reflexivity
                              |rewrite decide_False by discriminate]; reflexivity.
Qed.

Lemma fetchOrders_added_effect env o s :
  cycleEffect env s (fetchOrders_added env o s)
    (if decide (Order.id o ∈ previousOrdersRef s) then [] else [o]).
Proof.
  unfold fetchOrders_added.
  destruct (decide (Order.id o ∈ previousOrdersRef s)).
  - apply cycleEffect_none; reflexivity.
  - fold (receivedMessage o). fold (receivedRecord (now s) o).
    unfold cycleEffect. cbn [fmap list_fmap]. rewrite addDocs_single.
    unfold setTimeout, saveNotification, badgeTimer. simpl.
    fold (receivedMessage o). fold (receivedRecord (now s) o).
    destruct (addDoc_ok env (receivedRecord (now s) o)) eqn:Hok; simpl;
      rewrite union_empty_r_L; repeat split; reflexivity.
Qed.

Lemma fetchOrders_change_effect env names o s susp :
  let r := fetchOrders_change env names (s, susp) o in
  cycleEffect env s r.1 (filter (treatedAsNew names (previousOrdersRef s)) [o])
  ∧ r.2 = susp ++ filter (awaitsStore names) [o].
Proof.
  cbv zeta. unfold fetchOrders_change. rewrite !filter_cons, !filter_nil.
  destruct (decide (awaitsStore names o)) as [Hw|Hw].
  - rewrite (decide_False (P := treatedAsNew _ _ _)) by (intros [Hn _]; exact (Hn Hw)).
    unfold awaitsStore in Hw. rewrite Hw. cbn [fst snd]. split; [|reflexivity].
    pose proof (fetchStoreName_frame (getDoc_store env) (Order.storeId o) s) as Hf.
    cbv zeta in Hf. apply cycleEffect_none; apply Hf.
  - assert (truthy (Order.storeId o)
            && negb (hasStoreName names (Order.storeId o)) = false) as Hb
      by (apply not_true_is_false; exact Hw).
    rewrite Hb. cbn [fst snd]. rewrite app_nil_r. split; [|reflexivity].
    pose proof (fetchOrders_added_effect env o s) as He.
    destruct (decide (Order.id o ∈ previousOrdersRef s)) as [Hin|Hnin].
    + rewrite decide_False by (intros [_ Hn]; exact (Hn Hin)). exact He.
    + rewrite decide_True by (split; [exact Hw|exact Hnin]). exact He.
Qed.

Lemma fetchOrders_changes_effect env names L s susp :
  let r := foldl (fetchOrders_change env names) (s, susp) L in
  cycleEffect env s r.1 (filter (treatedAsNew names (previousOrdersRef s)) L)
  ∧ r.2 = susp ++ filter (awaitsStore names) L.
Proof.
  revert s susp. induction L as [|o L IH]; intros s susp; cbn [foldl].
  - cbn [fst snd]. rewrite !filter_nil, app_nil_r. split; [|reflexivity].
    apply cycleEffect_none; reflexivity.
  - pose proof (fetchOrders_change_effect env names o s susp) as H1. cbv zeta in H1.
    destruct (fetchOrders_change env names (s, susp) o) as [s1 susp1].
    cbn [fst snd] in H1. destruct H1 as [He1 Hs1].
    specialize (IH s1 susp1). cbv zeta in IH. destruct IH as [He2 Hs2].
    assert (previousOrdersRef s1 = previousOrdersRef s) as Hp by apply He1.
    rewrite Hp in He2.
    change (o :: L) with ([o] ++ L). rewrite !filter_app.
    split; [exact (cycleEffect_app _ _ _ _ _ _ He1 He2)|].
    rewrite Hs2, Hs1, app_assoc. reflexivity.
Qed.

(** The state after a cycle of [fetchOrders] whose fetch succeeds, for the
    callback of any render. *)
Lemma fetchOrders_in_fetched loading_ names env s ordersData :
  getDocs_orders env = Some ordersData →
  let s' := fetchOrders_in loading_ names env s in
  let marked :=
    if loading_ then []
    else filter (treatedAsNew names (previousOrdersRef s)) ordersData in
  previousOrdersRef s' = ids ordersData ∧ orders s' = ordersData
  ∧ loading s' = false ∧ now s' = now s
  ∧ intervalDue s' = intervalDue s ∧ updateDoc_log s' = updateDoc_log s
  ∧ newOrderIds s' = newOrderIds s ∪ list_to_set (Order.id <$> marked)
  ∧ addDoc_log s' = addDoc_log s ++ (receivedRecord (now s) <$> marked)
  ∧ notifications s'
    = addDocs env (receivedRecord (now s) <$> marked) (notifications s)
  ∧ timeouts s' = timeouts s ++ (badgeTimer env (now s) <$> marked).
Proof.
  intros Hget. cbv zeta. unfold fetchOrders_in. rewrite Hget.
  set (s1 := foldl (lookupIfMissing env names) s (uniqueStoreIds ordersData)).
  pose proof (storeLoop_frame env names (uniqueStoreIds ordersData) s) as Hfr.
  cbv zeta in Hfr. fold s1 in Hfr.
  destruct Hfr as (Ho & Hl & Hh & Hp & Hc & Ha & Hu & Hn & Ht & Hi).
  assert (He : let r := if loading_ then (s1, [])
                        else foldl (fetchOrders_change env names) (s1, [])
                               ordersData in
               cycleEffect env s r.1
                 (if loading_ then []
                  else filter (treatedAsNew names (previousOrdersRef s))
                         ordersData)
               ∧ Forall (λ o, o ∈ ordersData) r.2).
  { cbv zeta. destruct loading_; cbn [fst snd].
    - split; [apply cycleEffect_none; assumption|constructor].
    - pose proof (fetchOrders_changes_effect env names ordersData s1 [])
        as [He Hs].
      rewrite Hp in He. split.
      + apply (cycleEffect_app env s s1 _ [] _);
          [apply cycleEffect_none; assumption|exact He].
      + rewrite Hs. simpl. apply Forall_forall. intros o Hin.
        apply list_elem_of_filter in Hin. apply Hin. }
  cbv zeta in He.
  destruct (if loading_ then (s1, [])
            else foldl (fetchOrders_change env names) (s1, []) ordersData)
    as [s2 suspended].
  cbn [fst snd] in He. destruct He as [He Hsusp].
  rewrite fetchOrders_resumed_known.
  - destruct He as (_ & Hn2 & _ & _ & Hi2 & Hu2 & Hh2 & Ha2 & Hc2 & Ht2).
    simpl. repeat split; assumption.
  - eapply Forall_impl; [exact Hsusp|]. intros o Hin. simpl. unfold ids.
    apply elem_of_list_to_set, list_elem_of_fmap. exists o. split; [reflexivity|exact Hin].
Qed.

(** The same for the callback of the latest render. *)
Lemma fetchOrders_fetched env s ordersData :
  getDocs_orders env = Some ordersData →
  let s' := fetchOrders env s in
  let marked :=
    if loading s then []
    else filter (treatedAsNew (storeNames s) (previousOrdersRef s)) ordersData in
  previousOrdersRef s' = ids ordersData ∧ orders s' = ordersData
  ∧ loading s' = false ∧ now s' = now s
  ∧ intervalDue s' = intervalDue s ∧ updateDoc_log s' = updateDoc_log s
  ∧ newOrderIds s' = newOrderIds s ∪ list_to_set (Order.id <$> marked)
  ∧ addDoc_log s' = addDoc_log s ++ (receivedRecord (now s) <$> marked)
  ∧ notifications s'
    = addDocs env (receivedRecord (now s) <$> marked) (notifications s)
  ∧ timeouts s' = timeouts s ++ (badgeTimer env (now s) <$> marked).
Proof. apply fetchOrders_in_fetched. Qed.

Lemma persisted_addDocs ty O env ns coll :
  persisted ty O (addDocs env ns coll)
  = (persisted ty O coll
     + length (filter (λ n, Notification.type n = ty ∧ Notification.orderId n = O)
                 (filter (λ n, addDoc_ok env n = true) ns)))%nat.
Proof.
  unfold addDocs. generalize (filter (λ n, addDoc_ok env n = true) ns). clear ns.
  intros ns. revert coll. induction ns as [|n ns IH]; intros coll; cbn [foldl].
  - rewrite filter_nil. simpl. lia.
  - rewrite IH, persisted_addDoc, filter_cons. case_decide; simpl; lia.
Qed.

(** In a fetch that lists every order once, no order that the cycle treats
    as new shares its id with one whose callback awaits a store lookup. *)
Lemma awaiting_not_marked names prev ordersData o x :
  NoDup (Order.id <$> ordersData) → o ∈ ordersData → awaitsStore names o →
  x ∈ filter (treatedAsNew names prev) ordersData → Order.id x ≠ Order.id o.
Proof.
  intros Hnd Hin Hw Hx Heq.
  apply list_elem_of_filter in Hx as [[Hnw _] Hxin].
  assert (x = o) as ->; [|contradiction].
  apply list_elem_of_lookup in Hxin as [i Hi]. apply list_elem_of_lookup in Hin as [j Hj].
  assert (i = j) as ->.
  { apply (NoDup_lookup _ i j (Order.id o) Hnd);
      rewrite list_lookup_fmap; [rewrite Hi|rewrite Hj]; simpl;
      [rewrite Heq|]; reflexivity. }
  congruence.
Qed.

(** X6: a cycle of [fetchOrders] whose callback was built with [loading]
    false treats as new exactly the fetched orders that the snapshot lacks
    and that no store lookup holds up: it highlights them and hands one
    unread [new_order] record for each to [addDoc], in the order fetched,
    and it replaces the snapshot and the listed orders by the fetch.
    [names] is the [storeNames] that the callback closed over. *)
Theorem fetchOrders_marks_new_orders (names : gmap string string) (env : PollEnv)
    (s : State) (ordersData : list Order.t) :
  getDocs_orders env = Some ordersData →
  let s' := fetchOrders_in false names env s in
  let marked := filter (treatedAsNew names (previousOrdersRef s)) ordersData in
  newOrderIds s' = newOrderIds s ∪ list_to_set (Order.id <$> marked)
  ∧ (∃ l, addDoc_log s' = addDoc_log s ++ l
          ∧ Notification.orderId <$> l = Order.id <$> marked
          ∧ Forall (λ n, Notification.type n = new_order ∧ Notification.read n = false
                         ∧ Notification.createdAt n = now s) l)
  ∧ previousOrdersRef s' = ids ordersData ∧ orders s' = ordersData.
Proof.
  intros Hget. cbv zeta.
  pose proof (fetchOrders_in_fetched false names env s ordersData Hget) as H.
  cbv zeta in H. destruct H as (Hp & Ho & _ & _ & _ & _ & Hh & Ha & _ & _).
  split; [exact Hh|]. split; [|split; assumption].
  eexists. split; [exact Ha|]. split.
  - rewrite <- list_fmap_compose. reflexivity.
  - apply Forall_fmap, Forall_forall. intros o _. simpl. repeat split; reflexivity.
Qed.

Lemma fetchOrders_marks_new_orders_witness :
  getDocs_orders (fetching [orderA; orderC]) = Some [orderA; orderC]
  ∧ newOrderIds (fetchOrders_in false (storeNames listingA_fetch)
                   (fetching [orderA; orderC]) listingA_fetch)
    = newOrderIds listingA_fetch
      ∪ list_to_set
          (Order.id <$> filter (treatedAsNew (storeNames listingA_fetch)
                                  (previousOrdersRef listingA_fetch))
                          [orderA; orderC]).
Proof.
  assert (H1 : getDocs_orders (fetching [orderA; orderC]) = Some [orderA; orderC])
    by reflexivity.
  split; [exact H1|].
  exact (proj1 (fetchOrders_marks_new_orders (storeNames listingA_fetch)
                  (fetching [orderA; orderC]) listingA_fetch [orderA; orderC] H1)).
Defined.

(** X7: an order that is fetched while nothing truthy is under its store id
    in the [storeNames] that the callback closed over is taken into the
    snapshot without a highlight, without a notification and without a
    timer: its callback waits for the store lookup and finds the order in
    the replaced snapshot. *)
Theorem fetchOrders_skips_orders_awaiting_store (loading_ : bool)
    (names : gmap string string) (env : PollEnv) (s : State)
    (ordersData : list Order.t) (o : Order.t) :
  getDocs_orders env = Some ordersData →
  NoDup (Order.id <$> ordersData) → o ∈ ordersData →
  awaitsStore names o →
  let s' := fetchOrders_in loading_ names env s in
  (Order.id o ∈ newOrderIds s' ↔ Order.id o ∈ newOrderIds s)
  ∧ persisted new_order (Order.id o) (notifications s')
    = persisted new_order (Order.id o) (notifications s)
  ∧ Forall (λ n, Notification.orderId n ≠ Order.id o)
      (drop (length (addDoc_log s)) (addDoc_log s'))
  ∧ Forall (λ p, p.2 ≠ DeleteNewOrderId (Order.id o))
      (drop (length (timeouts s)) (timeouts s'))
  ∧ Order.id o ∈ previousOrdersRef s'.
Proof.
  intros Hget Hnd Hin Hw. cbv zeta.
  pose proof (fetchOrders_in_fetched loading_ names env s ordersData Hget) as H.
  cbv zeta in H. destruct H as (Hp & _ & _ & _ & _ & _ & Hh & Ha & Hc & Ht).
  set (marked := if loading_ then []
                 else filter (treatedAsNew names (previousOrdersRef s)) ordersData) in *.
  assert (Hnone : ∀ x, x ∈ marked → Order.id x ≠ Order.id o).
  { intros x Hx. unfold marked in Hx. destruct loading_; [inversion Hx|].
    exact (awaiting_not_marked _ _ _ _ _ Hnd Hin Hw Hx). }
  split; [|split; [|split; [|split]]].
  - rewrite Hh. split; [|set_solver].
    intros [Hold|Hnew]%elem_of_union; [exact Hold|].
    apply elem_of_list_to_set, list_elem_of_fmap in Hnew as (x & Hx & Hxin).
    exfalso. exact (Hnone x Hxin (eq_sym Hx)).
  - rewrite Hc, persisted_addDocs.
    rewrite (filter_none (λ n, Notification.type n = new_order
                               ∧ Notification.orderId n = Order.id o)); [simpl; lia|].
    apply Forall_forall. intros n Hn [_ Hid].
    apply list_elem_of_filter in Hn as [_ Hn].
    apply list_elem_of_fmap in Hn as (x & -> & Hx). exact (Hnone x Hx Hid).
  - rewrite Ha, drop_app_length. apply Forall_forall. intros n Hn.
    apply list_elem_of_fmap in Hn as (x & -> & Hx). simpl. exact (Hnone x Hx).
  - rewrite Ht, drop_app_length. apply Forall_forall. intros p Hp'.
    apply list_elem_of_fmap in Hp' as (x & -> & Hx). simpl.
    intros [= Heq]. exact (Hnone x Hx Heq).
  - rewrite Hp. unfold ids. apply elem_of_list_to_set, list_elem_of_fmap.
    exists o. split; [reflexivity|exact Hin].
Qed.

Lemma fetchOrders_skips_orders_awaiting_store_witness :
  getDocs_orders (fetching [orderC; orderD]) = Some [orderC; orderD]
  ∧ NoDup (Order.id <$> [orderC; orderD])
  ∧ orderD ∈ [orderC; orderD]
  ∧ awaitsStore (storeNames listingA_fetch) orderD
  ∧ persisted new_order "D"
      (notifications (fetchOrders (fetching [orderC; orderD]) listingA_fetch))
    = persisted new_order "D" (notifications listingA_fetch).
Proof.
  assert (H1 : getDocs_orders (fetching [orderC; orderD]) = Some [orderC; orderD])
    by reflexivity.
  assert (H2 : NoDup (Order.id <$> [orderC; orderD]))
    by (apply (bool_decide_unpack _); vm_compute; exact I).
  assert (H3 : orderD ∈ [orderC; orderD])
    by (apply elem_of_cons; right; apply list_elem_of_singleton; reflexivity).
  assert (H4 : awaitsStore (storeNames listingA_fetch) orderD)
    by (vm_compute; reflexivity).
  repeat (split; [assumption|]).
  exact (proj1 (proj2 (fetchOrders_skips_orders_awaiting_store
                         (loading listingA_fetch) (storeNames listingA_fetch)
                         (fetching [orderC; orderD]) listingA_fetch [orderC; orderD]
                         orderD H1 H2 H3 H4))).
Defined.

(** X8: a poll that fetches no identifier beyond the snapshot (the
    collection is unchanged or has shrunk, or the fetch failed) writes
    nothing, highlights nothing and arms no timer, in both revisions. *)
Theorem poll_without_news_is_silent (env : PollEnv) (s : State) :
  from_option ids ∅ (getDocs_orders env) ⊆ previousOrdersRef s →
  (addDoc_log (loadOrders env s) = addDoc_log s
   ∧ notifications (loadOrders env s) = notifications s
   ∧ newOrderIds (loadOrders env s) = newOrderIds s
   ∧ timeouts (loadOrders env s) = timeouts s)
  ∧ (addDoc_log (fetchOrders env s) = addDoc_log s
     ∧ notifications (fetchOrders env s) = notifications s
     ∧ newOrderIds (fetchOrders env s) = newOrderIds s
     ∧ timeouts (fetchOrders env s) = timeouts s).
Proof.
  intros Hsub. destruct (getDocs_orders env) as [L|] eqn:Hget; simpl in Hsub.
  - assert (Hold : ∀ o, o ∈ L → Order.id o ∈ previousOrdersRef s).
    { intros o Ho. apply Hsub. unfold ids.
      apply elem_of_list_to_set, list_elem_of_fmap. exists o. split; [reflexivity|exact Ho]. }
    split.
    + pose proof (loadOrders_fetched env s L Hget) as H. cbv zeta in H.
      destruct H as (_ & _ & Hh & Ht & Ha & Hc & _).
      assert (ids L ∖ previousOrdersRef s = ∅) as Hemp by set_solver.
      rewrite Hemp in Hh, Ht. rewrite decide_False in Hh by (rewrite size_empty; lia).
      rewrite decide_False in Ht by (rewrite size_empty; lia).
      assert (newOrderRecords (now s) (previousOrdersRef s) L = []) as Hrec.
      { unfold newOrderRecords. case_decide; [|reflexivity].
        rewrite filter_none; [reflexivity|].
        apply Forall_forall. intros o Ho Hn. exact (Hn (Hold o Ho)). }
      rewrite Hrec, app_nil_r in Ha. rewrite Hrec in Hc.
      repeat split; assumption.
    + pose proof (fetchOrders_fetched env s L Hget) as H. cbv zeta in H.
      destruct H as (_ & _ & _ & _ & _ & _ & Hh & Ha & Hc & Ht).
      assert ((if loading s then []
               else filter (treatedAsNew (storeNames s) (previousOrdersRef s)) L) = [])
        as Hm.
      { destruct (loading s); [reflexivity|]. apply filter_none.
        apply Forall_forall. intros o Ho [_ Hn]. exact (Hn (Hold o Ho)). }
      rewrite Hm in Hh, Ha, Hc, Ht. simpl in Hh, Ha, Hc, Ht.
      rewrite app_nil_r in Ha, Ht. rewrite union_empty_r_L in Hh.
      repeat split; assumption.
  - rewrite (loadOrders_failed env s Hget). unfold fetchOrders, fetchOrders_in. rewrite Hget.
    repeat split; reflexivity.
Qed.

Lemma poll_without_news_is_silent_witness :
  from_option ids ∅ (getDocs_orders (fetching [orderA])) ⊆ previousOrdersRef listingA_load
  ∧ addDoc_log (loadOrders (fetching [orderA]) listingA_load) = addDoc_log listingA_load.
Proof.
  assert (H : from_option ids ∅ (getDocs_orders (fetching [orderA]))
              ⊆ previousOrdersRef listingA_load)
    by (apply (bool_decide_unpack _); vm_compute; exact I).
  split; [exact H|].
  exact (proj1 (proj1 (poll_without_news_is_silent (fetching [orderA]) listingA_load H))).
Defined.

(** ** What every move writes *)

Lemma addDocs_grows env l (coll : gmap string Notification.t) :
  coll ⊆ addDocs env l coll
  ∧ (size (addDocs env l coll) ≤ size coll + length l)%nat.
Proof.
  revert coll. induction l as [|n l IH]; intros coll.
  - unfold addDocs. rewrite filter_nil. simpl. split; [reflexivity|lia].
  - change (n :: l) with ([n] ++ l). rewrite addDocs_app, addDocs_single.
    destruct (IH (if addDoc_ok env n then addDoc n coll else coll)) as [Hsub Hsz].
    assert (coll ⊆ (if addDoc_ok env n then addDoc n coll else coll)
            ∧ (size (if addDoc_ok env n then addDoc n coll else coll) ≤ size coll + 1)%nat)
      as [Hsub1 Hsz1].
    { destruct (addDoc_ok env n); [|split; [reflexivity|lia]].
      unfold addDoc. split; [apply insert_subseteq, addDoc_fresh|].
      rewrite map_size_insert_None by apply addDoc_fresh. lia. }
    split; [etrans; eassumption|]. simpl. lia.
Qed.

Lemma newOrderRecords_stamped at_ prev L :
  Forall (λ n, Notification.read n = false ∧ Notification.createdAt n = at_
               ∧ Notification.type n = new_order)
    (newOrderRecords at_ prev L).
Proof.
  unfold newOrderRecords. case_decide; [|constructor].
  apply Forall_fmap, Forall_forall. intros o _. simpl. repeat split; reflexivity.
Qed.

(** Every move appends to the log the records it hands to [addDoc], all
    unread and stamped with the instant of the move, and adds to the
    collection those whose write succeeds; the clock does not go back. *)
Lemma move_writes m s :
  ∃ env l,
    addDoc_log (move m s) = addDoc_log s ++ l
    ∧ notifications (move m s) = addDocs env l (notifications s)
    ∧ Forall (λ n, Notification.read n = false ∧ Notification.createdAt n = now s) l
    ∧ now s ≤ now (move m s).
Proof.
  assert (Hnil : ∀ s', addDoc_log s' = addDoc_log s → notifications s' = notifications s →
                       now s ≤ now s' →
                       ∃ env l, addDoc_log s' = addDoc_log s ++ l
                                ∧ notifications s' = addDocs env l (notifications s)
                                ∧ Forall (λ n, Notification.read n = false
                                               ∧ Notification.createdAt n = now s) l
                                ∧ now s ≤ now s').
  { intros s' Ha Hc Hn. exists failing, []. rewrite app_nil_r.
    repeat split; [exact Ha|exact Hc|constructor|exact Hn]. }
  destruct m as [t|due|entry|env order ty msg|env|env].
  - apply (Hnil (move (MElapse t) s));
      [apply elapse_frame|apply elapse_frame|cbn [move]; rewrite elapse_now; lia].
  - apply (Hnil (move (MSetInterval due) s)); [reflexivity|reflexivity|simpl; lia].
  - apply (Hnil (move (MLogUpdate entry) s)); [reflexivity|reflexivity|simpl; lia].
  - cbn [move]. exists env, [notificationOf order ty msg (now s)].
    rewrite saveNotification_log, addDocs_single.
    pose proof (saveNotification_frame env order ty msg s) as Hf. cbv zeta in Hf.
    destruct Hf as (_ & _ & _ & _ & _ & _ & _ & Hn & _).
    split; [reflexivity|]. split.
    + unfold saveNotification. simpl. destruct (addDoc_ok env _); reflexivity.
    + split; [|rewrite Hn; lia]. apply Forall_singleton. split; reflexivity.
  - cbn [move]. destruct (getDocs_orders env) as [L|] eqn:Hget.
    + pose proof (loadOrders_fetched env s L Hget) as H. cbv zeta in H.
      destruct H as (_ & _ & _ & _ & Ha & Hc & Hn & _).
      exists env, (newOrderRecords (now s) (previousOrdersRef s) L).
      split; [exact Ha|]. split; [exact Hc|]. split; [|rewrite Hn; lia].
      eapply Forall_impl; [apply newOrderRecords_stamped|]. intros n Hx. split; apply Hx.
    + rewrite (loadOrders_failed env s Hget).
      apply (Hnil (setLoading false s)); [reflexivity|reflexivity|simpl; lia].
  - cbn [move]. destruct (getDocs_orders env) as [L|] eqn:Hget.
    + pose proof (fetchOrders_fetched env s L Hget) as H. cbv zeta in H.
      destruct H as (_ & _ & _ & Hn & _ & _ & _ & Ha & Hc & _).
      eexists env, _. split; [exact Ha|]. split; [exact Hc|]. split; [|rewrite Hn; lia].
      apply Forall_fmap, Forall_forall. intros o _. split; reflexivity.
    + unfold fetchOrders, fetchOrders_in. rewrite Hget.
      apply (Hnil (setLoading false s)); [reflexivity|reflexivity|simpl; lia].
Qed.

Lemma grows_refl s : grows s s.
Proof. split; [reflexivity|]. exists []. rewrite app_nil_r. split; [reflexivity|simpl; lia]. Qed.

Lemma grows_trans s1 s2 s3 : grows s1 s2 → grows s2 s3 → grows s1 s3.
Proof.
  intros [Hs1 (l1 & Hl1 & Hz1)] [Hs2 (l2 & Hl2 & Hz2)].
  split; [etrans; eassumption|]. exists (l1 ++ l2).
  rewrite Hl2, Hl1, app_assoc, length_app. split; [reflexivity|lia].
Qed.

Lemma move_grows m s : grows s (move m s).
Proof.
  destruct (move_writes m s) as (env & l & Ha & Hc & _ & _).
  destruct (addDocs_grows env l (notifications s)) as [Hsub Hsz].
  split; [rewrite Hc; exact Hsub|]. exists l. split; [exact Ha|]. rewrite Hc. exact Hsz.
Qed.

(** X9: over any run of either revision the 'notifications' collection only
    gains documents: no document is changed or removed, the log of records
    handed to [addDoc] is only extended, and the collection gains at most
    one document for each record handed over. *)
Theorem runs_only_add_notifications (evs : list Event) (s : State) :
  grows s (runLoad evs s) ∧ grows s (runFetch evs s).
Proof.
  split.
  - apply (runLoad_invariant (grows s)); [|apply grows_refl].
    intros m s' _ H. exact (grows_trans _ _ _ H (move_grows m s')).
  - apply (runFetch_invariant (grows s)); [|apply grows_refl].
    intros m s' _ H. exact (grows_trans _ _ _ H (move_grows m s')).
Qed.

(** ** The snapshot and the listed orders *)

Lemma move_snapshotOfOrders m s : snapshotOfOrders s → snapshotOfOrders (move m s).
Proof.
  unfold snapshotOfOrders. intros H.
  destruct m as [t|due|entry|env order ty msg|env|env]; cbn [move]; try exact H.
  - pose proof (elapse_frame t s) as Hf. cbv zeta in Hf.
    destruct Hf as (-> & _ & _ & -> & _). exact H.
  - pose proof (saveNotification_frame env order ty msg s) as Hf. cbv zeta in Hf.
    destruct Hf as (-> & _ & _ & _ & -> & _). exact H.
  - destruct (getDocs_orders env) as [L|] eqn:Hget.
    + pose proof (loadOrders_fetched env s L Hget) as Hf. cbv zeta in Hf.
      destruct Hf as (-> & -> & _). reflexivity.
    + rewrite (loadOrders_failed env s Hget). exact H.
  - destruct (getDocs_orders env) as [L|] eqn:Hget.
    + pose proof (fetchOrders_fetched env s L Hget) as Hf. cbv zeta in Hf.
      destruct Hf as (-> & -> & _). reflexivity.
    + unfold fetchOrders, fetchOrders_in. rewrite Hget. exact H.
Qed.

(** X10: at every point of a run from mount, in either revision, the
    snapshot is the set of ids of the orders listed; in particular a status
    handler finds an order among the listed ones exactly when its id is in
    the snapshot. *)
Theorem snapshot_is_listing (evs : list Event) (coll : gmap string Notification.t)
    (t0 : Z) (orderId : string) :
  let sL := runLoad evs (initial coll t0) in
  let sF := runFetch evs (initial coll t0) in
  snapshotOfOrders sL ∧ snapshotOfOrders sF
  ∧ (is_Some (find (λ o, bool_decide (Order.id o = orderId)) (orders sL))
     ↔ orderId ∈ previousOrdersRef sL).
Proof.
  cbv zeta.
  assert (HL : snapshotOfOrders (runLoad evs (initial coll t0))).
  { apply (runLoad_invariant snapshotOfOrders); [|reflexivity].
    intros m s _. apply move_snapshotOfOrders. }
  assert (HF : snapshotOfOrders (runFetch evs (initial coll t0))).
  { apply (runFetch_invariant snapshotOfOrders); [|reflexivity].
    intros m s _. apply move_snapshotOfOrders. }
  split; [exact HL|]. split; [exact HF|].
  rewrite HL. unfold ids. generalize (orders (runLoad evs (initial coll t0))).
  intros l. induction l as [|o l IH]; simpl.
  - split; [intros [x Hx]; discriminate|intros Hx; exfalso; exact (not_elem_of_empty _ Hx)].
  - destruct (bool_decide (Order.id o = orderId)) eqn:Hb.
    + apply bool_decide_eq_true in Hb. split; [intros _|intros _; eexists; reflexivity].
      apply elem_of_union_l, elem_of_singleton. symmetry. exact Hb.
    + apply bool_decide_eq_false in Hb. rewrite IH. split.
      * intros Hin. apply elem_of_union_r. exact Hin.
      * intros [Hx|Hx]%elem_of_union; [|exact Hx].
        apply elem_of_singleton in Hx. congruence.
Qed.

(** ** The log of records *)

Lemma move_logInOrder m s : logInOrder s → logInOrder (move m s).
Proof.
  intros [Hall Hsorted].
  destruct (move_writes m s) as (env & l & Ha & _ & Hl & Hn).
  unfold logInOrder. rewrite Ha. split.
  - apply Forall_app. split.
    + eapply Forall_impl; [exact Hall|]. intros n [Hr Hc]. split; [exact Hr|lia].
    + eapply Forall_impl; [exact Hl|]. intros n [Hr Hc]. split; [exact Hr|lia].
  - apply StronglySorted_app. split; [|split; [exact Hsorted|]].
    + intros x1 x2 H1 H2. unfold chronological.
      rewrite Forall_forall in Hall, Hl.
      destruct (Hall x1 H1) as [_ Hx1]. destruct (Hl x2 H2) as [_ Hx2]. lia.
    + clear Ha. induction Hl as [|x l [_ Hx] Hl IH]; constructor; [exact IH|].
      eapply Forall_impl; [exact Hl|]. intros y [_ Hy]. unfold chronological. lia.
Qed.

(** X11: the records that a run from mount hands to [addDoc], in either
    revision, are all unread when written, none is stamped later than the
    clock, and they are handed over in the order of their stamps. *)
Theorem records_unread_and_in_order (evs : list Event)
    (coll : gmap string Notification.t) (t0 : Z) :
  logInOrder (runLoad evs (initial coll t0))
  ∧ logInOrder (runFetch evs (initial coll t0)).
Proof.
  assert (H0 : logInOrder (initial coll t0)) by (split; constructor).
  split.
  - apply (runLoad_invariant logInOrder); [|exact H0].
    intros m s _. apply move_logInOrder.
  - apply (runFetch_invariant logInOrder); [|exact H0].
    intros m s _. apply move_logInOrder.
Qed.

(** ** Highlights and their timers *)

(** Once the callback that deletes [id] has run, [id] is not highlighted. *)
Lemma fire_delete cbs d id s :
  (d, DeleteNewOrderId id) ∈ cbs → id ∉ newOrderIds (fire cbs s).
Proof.
  unfold fire. revert s. induction cbs as [|[t cb] l IH]; intros s Hin; cbn [foldl].
  - inversion Hin.
  - apply elem_of_cons in Hin as [Heq|Hin].
    + injection Heq as <- <-.
      pose proof (fire_subset l (runTimeout (DeleteNewOrderId id) s)) as Hsub.
      unfold fire in Hsub. simpl in *. set_solver.
    + apply IH. exact Hin.
Qed.

Lemma elapse_highlightsExpire t s : highlightsExpire s → highlightsExpire (elapse t s).
Proof.
  intros H id Hin. rewrite elapse_newOrderIds in Hin.
  destruct (H id) as (d & cb & Hpend & Hcb); [eapply fire_subset; exact Hin|].
  exists d, cb. split; [|exact Hcb].
  rewrite elapse_timeouts. apply list_elem_of_filter. split; [|exact Hpend].
  intros Hdue. 
  assert (Hfired : (d, cb) ∈ merge_sort earlier (filter (dueBy t) (timeouts s))).
  { rewrite merge_sort_Permutation. apply list_elem_of_filter. split; assumption. }
  destruct Hcb as [->| ->].
  - rewrite (fire_clear _ d) in Hin by exact Hfired. exact (not_elem_of_empty _ Hin).
  - exact (fire_delete _ d id s Hfired Hin).
Qed.

Lemma highlightsExpire_same s s' :
  newOrderIds s' = newOrderIds s → timeouts s' = timeouts s →
  highlightsExpire s → highlightsExpire s'.
Proof. unfold highlightsExpire. intros -> ->. exact id. Qed.

Lemma move_highlightsExpire m s : highlightsExpire s → highlightsExpire (move m s).
Proof.
  intros H. destruct m as [t|due|entry|env order ty msg|env|env]; cbn [move].
  - apply elapse_highlightsExpire. exact H.
  - exact H.
  - exact H.
  - pose proof (saveNotification_frame env order ty msg s) as Hf. cbv zeta in Hf.
    apply (highlightsExpire_same s); [apply Hf|apply Hf|exact H].
  - pose proof (loadOrders_highlight env s) as Hf. cbv zeta in Hf.
    destruct Hf as (Hn & Ht & _).
    destruct (decide (0 < size (newIdsOf env s))%nat).
    + intros id _. exists (now s + 5000), ClearNewOrderIds. split; [|left; reflexivity].
      rewrite Ht. apply elem_of_app. right. apply list_elem_of_singleton. reflexivity.
    + apply (highlightsExpire_same s); assumption.
  - destruct (getDocs_orders env) as [L|] eqn:Hget.
    + pose proof (fetchOrders_fetched env s L Hget) as Hf. cbv zeta in Hf.
      destruct Hf as (_ & _ & _ & _ & _ & _ & Hn & _ & _ & Ht).
      intros id Hin. rewrite Hn in Hin. rewrite Ht.
      apply elem_of_union in Hin as [Hin|Hin].
      * destruct (H id Hin) as (d & cb & Hpend & Hcb). exists d, cb.
        split; [apply elem_of_app; left; exact Hpend|exact Hcb].
      * apply elem_of_list_to_set, list_elem_of_fmap in Hin as (o & -> & Ho).
        exists (badgeTimer env (now s) o).1, (DeleteNewOrderId (Order.id o)).
        split; [|right; reflexivity]. apply elem_of_app. right.
        apply list_elem_of_fmap. exists o. split; [reflexivity|exact Ho].
    + unfold fetchOrders, fetchOrders_in. rewrite Hget. exact H.
Qed.

Lemma Forall_filter_keep {A} (P Q : A → Prop) `{∀ x, Decision (P x)} (l : list A) :
  Forall Q l → Forall Q (filter P l).
Proof.
  rewrite !Forall_forall. intros HQ x Hx. apply list_elem_of_filter in Hx as [_ Hx].
  exact (HQ x Hx).
Qed.

Lemma move_dueWithinFive m s : loadMove m → dueWithinFive s → dueWithinFive (move m s).
Proof.
  unfold dueWithinFive. intros Hm H.
  destruct m as [t|due|entry|env order ty msg|env|env]; cbn [move]; try exact H.
  - rewrite elapse_timeouts, elapse_now.
    eapply Forall_impl; [apply Forall_filter_keep; exact H|]. intros p Hp. simpl in Hp. lia.
  - pose proof (saveNotification_frame env order ty msg s) as Hf. cbv zeta in Hf.
    destruct Hf as (_ & _ & _ & _ & _ & _ & _ & -> & -> & _). exact H.
  - pose proof (loadOrders_highlight env s) as Hf. cbv zeta in Hf.
    destruct Hf as (_ & -> & ->).
    destruct (decide (0 < size (newIdsOf env s))%nat); [|exact H].
    apply Forall_app. split; [exact H|]. apply Forall_singleton. simpl. lia.
  - destruct Hm.
Qed.

Lemma highlights_gone t s :
  highlightsExpire s → Forall (dueBy t) (timeouts s) → newOrderIds (elapse t s) = ∅.
Proof.
  intros H Hall. apply elem_of_equiv_empty_L. intros id Hin.
  destruct (elapse_highlightsExpire t s H id Hin) as (d & cb & Hpend & _).
  rewrite elapse_timeouts in Hpend. apply list_elem_of_filter in Hpend as [Hnd Hpend].
  rewrite Forall_forall in Hall. exact (Hnd (Hall _ Hpend)).
Qed.

(** X12: no highlight of the [loadOrders] revision outlives five seconds
    without a poll: at every point of a run from mount, if nothing but time
    follows, the highlight set is empty five seconds later, whatever the
    polls found and however many batches overlapped. *)
Theorem load_highlights_gone_after_five_seconds (evs : list Event)
    (coll : gmap string Notification.t) (t0 t : Z) :
  now (runLoad evs (initial coll t0)) + 5000 ≤ t →
  newOrderIds (elapse t (runLoad evs (initial coll t0))) = ∅.
Proof.
  intros Ht.
  assert (H : highlightsExpire (runLoad evs (initial coll t0))
              ∧ dueWithinFive (runLoad evs (initial coll t0))).
  { apply (runLoad_invariant (λ s, highlightsExpire s ∧ dueWithinFive s)).
    - intros m s Hm [H1 H2].
      split; [apply move_highlightsExpire; exact H1|apply move_dueWithinFive; assumption].
    - split; [intros id Hin; exfalso; exact (not_elem_of_empty _ Hin)|constructor]. }
  destruct H as [H1 H2]. apply highlights_gone; [exact H1|].
  eapply Forall_impl; [exact H2|]. intros p Hp. unfold dueBy. simpl in *. lia.
Qed.

Lemma load_highlights_gone_after_five_seconds_witness :
  now (runLoad secondFetchAddsB (initial ∅ 0)) + 5000 ≤ 10000
  ∧ newOrderIds (elapse 10000 (runLoad secondFetchAddsB (initial ∅ 0))) = ∅.
Proof.
  assert (H : now (runLoad secondFetchAddsB (initial ∅ 0)) + 5000 ≤ 10000)
    by (vm_compute; discriminate).
  split; [exact H|].
  exact (load_highlights_gone_after_five_seconds secondFetchAddsB ∅ 0 10000 H).
Defined.

(** ** Stores that already have a name *)

Lemma nameKept_refl k s : nameKept k s s.
Proof.
  split; [reflexivity|]. exists []. rewrite app_nil_r. split; [reflexivity|].
  apply not_elem_of_nil.
Qed.

Lemma nameKept_trans k s1 s2 s3 : nameKept k s1 s2 → nameKept k s2 s3 → nameKept k s1 s3.
Proof.
  intros [Hn1 (l1 & Hl1 & Hk1)] [Hn2 (l2 & Hl2 & Hk2)].
  split; [rewrite Hn2; exact Hn1|]. exists (l1 ++ l2).
  rewrite Hl2, Hl1, app_assoc. split; [reflexivity|].
  rewrite elem_of_app. intros [Hx|Hx]; [exact (Hk1 Hx)|exact (Hk2 Hx)].
Qed.

Lemma nameKept_same k s s' :
  storeNames s' = storeNames s → getDoc_log s' = getDoc_log s → nameKept k s s'.
Proof.
  intros Hn Hl. split; [rewrite Hn; reflexivity|]. exists [].
  rewrite app_nil_r. split; [exact Hl|apply not_elem_of_nil].
Qed.

Lemma fetchStoreName_nameKept look k storeId s :
  storeId ≠ k → nameKept k s (fetchStoreName look storeId s).2.
Proof.
  intros Hne. unfold fetchStoreName, nameKept.
  destruct (look storeId) as [name| |]; cbn [snd]; simpl.
  - split; [apply lookup_insert_ne; exact Hne|].
    exists [storeId]. split; [reflexivity|]. rewrite list_elem_of_singleton. congruence.
  - split; [reflexivity|].
    exists [storeId]. split; [reflexivity|]. rewrite list_elem_of_singleton. congruence.
  - split; [reflexivity|].
    exists [storeId]. split; [reflexivity|]. rewrite list_elem_of_singleton. congruence.
Qed.

(** The guard [storeId && !storeNames[storeId]] is false for a store that
    has a name. *)
Lemma guard_skips_named names k storeId :
  hasStoreName names k = true →
  truthy storeId && negb (hasStoreName names storeId) = true → storeId ≠ k.
Proof.
  intros Hk Hg ->. rewrite Hk in Hg. rewrite andb_comm in Hg. discriminate.
Qed.

Lemma lookupIfMissing_nameKept env names k s storeId :
  hasStoreName names k = true → nameKept k s (lookupIfMissing env names s storeId).
Proof.
  intros Hk. unfold lookupIfMissing.
  destruct (truthy storeId && negb (hasStoreName names storeId)) eqn:Hg.
  - apply fetchStoreName_nameKept. exact (guard_skips_named _ _ _ Hk Hg).
  - apply nameKept_refl.
Qed.

Lemma fetchOrders_added_nameKept env k order s :
  nameKept k s (fetchOrders_added env order s).
Proof.
  unfold fetchOrders_added. destruct (decide _); [apply nameKept_refl|].
  cbv zeta. unfold setTimeout.
  match goal with |- context [saveNotification ?e ?o ?t ?m ?x] =>
    pose proof (saveNotification_frame e o t m x) as Hf end.
  cbv zeta in Hf. destruct Hf as (_ & _ & _ & Hn & _ & Hl & _).
  apply nameKept_same; simpl; [rewrite Hn|rewrite Hl]; reflexivity.
Qed.

Lemma loadOrders_each_nameKept env names k acc order :
  hasStoreName names k = true →
  nameKept k acc.2 (loadOrders_each env names acc order).2.
Proof.
  intros Hk. destruct acc as [newIds s]. unfold loadOrders_each. cbn [snd].
  set (s1 := if decide (0 < size (previousOrdersRef s))%nat
             then saveNotification env order new_order (newOrderMessage order) s else s).
  assert (H1 : nameKept k s s1).
  { unfold s1. destruct (decide (0 < size (previousOrdersRef s))%nat);
      [|apply nameKept_refl].
    pose proof (saveNotification_frame env order new_order (newOrderMessage order) s) as Hf.
    cbv zeta in Hf. destruct Hf as (_ & _ & _ & Hn & _ & Hl & _).
    apply nameKept_same; assumption. }
  destruct (decide (Order.id order ∈ previousOrdersRef s));
    destruct (truthy (Order.storeId order)
              && negb (hasStoreName names (Order.storeId order))) eqn:Hg; cbn [snd].
  - apply fetchStoreName_nameKept. exact (guard_skips_named _ _ _ Hk Hg).
  - apply nameKept_refl.
  - eapply nameKept_trans; [exact H1|].
    apply fetchStoreName_nameKept. exact (guard_skips_named _ _ _ Hk Hg).
  - exact H1.
Qed.

Lemma loadOrders_in_nameKept k names env s :
  hasStoreName names k = true → nameKept k s (loadOrders_in names env s).
Proof.
  intros Hk. unfold loadOrders_in. destruct (getDocs_orders env) as [L|];
    [|apply nameKept_same; reflexivity].
  assert (H : ∀ acc, nameKept k acc.2 (foldl (loadOrders_each env names) acc L).2).
  { induction L as [|o L IH]; intros acc; cbn [foldl]; [apply nameKept_refl|].
    eapply nameKept_trans; [apply loadOrders_each_nameKept; exact Hk|apply IH]. }
  specialize (H (∅, s)). cbn [snd] in H.
  destruct (foldl (loadOrders_each env names) (∅, s) L) as [newIds s1].
  cbn [snd] in H. eapply nameKept_trans; [exact H|].
  destruct (decide (0 < size newIds)%nat); apply nameKept_same; reflexivity.
Qed.

Lemma fetchOrders_in_nameKept k loading_ names env s :
  hasStoreName names k = true → nameKept k s (fetchOrders_in loading_ names env s).
Proof.
  intros Hk. unfold fetchOrders_in. destruct (getDocs_orders env) as [L|];
    [|apply nameKept_same; reflexivity].
  assert (H1 : ∀ l s0, nameKept k s0 (foldl (lookupIfMissing env names) s0 l)).
  { induction l as [|i l IH]; intros s0; cbn [foldl]; [apply nameKept_refl|].
    eapply nameKept_trans; [apply lookupIfMissing_nameKept; exact Hk|apply IH]. }
  assert (H2 : ∀ l acc,
             nameKept k acc.1 (foldl (fetchOrders_change env names) acc l).1).
  { induction l as [|o l IH]; intros acc; cbn [foldl]; [apply nameKept_refl|].
    eapply nameKept_trans; [|apply IH].
    destruct acc as [s0 susp]. unfold fetchOrders_change.
    destruct (truthy (Order.storeId o)
              && negb (hasStoreName names (Order.storeId o))) eqn:Hg; cbn [fst].
    - apply fetchStoreName_nameKept. exact (guard_skips_named _ _ _ Hk Hg).
    - apply fetchOrders_added_nameKept. }
  assert (H3 : ∀ l s0,
             nameKept k s0 (foldl (λ s order, fetchOrders_added env order s) s0 l)).
  { induction l as [|o l IH]; intros s0; cbn [foldl]; [apply nameKept_refl|].
    eapply nameKept_trans; [apply fetchOrders_added_nameKept|apply IH]. }
  set (s1 := foldl (lookupIfMissing env names) s (uniqueStoreIds L)).
  assert (Hs1 : nameKept k s s1) by apply H1.
  set (r := if loading_ then (s1, [])
            else foldl (fetchOrders_change env names) (s1, []) L).
  assert (Hr : nameKept k s1 r.1).
  { unfold r. destruct loading_; [apply nameKept_refl|]. apply (H2 L (s1, [])). }
  destruct r as [s2 susp]. cbn [fst] in Hr.
  eapply nameKept_trans; [exact Hs1|]. eapply nameKept_trans; [exact Hr|].
  eapply nameKept_trans; [|apply H3]. apply nameKept_same; reflexivity.
Qed.

(** X14: a cycle issues no [getDoc] for a store under whose id the
    [storeNames] that its callback closed over holds something truthy (a
    non-empty stored name, or a property that the object inherits), and it
    leaves the entry of that store as it is.  This holds for the callback
    of any render, in either revision: what guards the lookup is the
    object closed over, not the one the state holds by then. *)
Theorem callback_skips_stores_it_has_named (k : string) (loading_ : bool)
    (names : gmap string string) (env : PollEnv) (s : State) :
  hasStoreName names k = true →
  nameKept k s (loadOrders_in names env s)
  ∧ nameKept k s (fetchOrders_in loading_ names env s).
Proof.
  intros Hk. split; [apply loadOrders_in_nameKept|apply fetchOrders_in_nameKept];
    exact Hk.
Qed.

Lemma callback_skips_stores_it_has_named_witness :
  hasStoreName (storeNames listingA_load) "s1" = true
  ∧ nameKept "s1" (initial ∅ 0)
      (loadOrders_in (storeNames listingA_load) (fetching [orderA; orderB]) (initial ∅ 0))
  ∧ nameKept "s1" (initial ∅ 0)
      (fetchOrders_in false (storeNames listingA_load) (fetching [orderA; orderB])
         (initial ∅ 0)).
Proof.
  assert (H : hasStoreName (storeNames listingA_load) "s1" = true)
    by (vm_compute; reflexivity).
  split; [exact H|].
  exact (callback_skips_stores_it_has_named "s1" false (storeNames listingA_load)
           (fetching [orderA; orderB]) (initial ∅ 0) H).
Defined.

(** ** The store loop of [fetchOrders] *)

Lemma uniqueStoreIds_spec (ordersData : list Order.t) :
  NoDup (uniqueStoreIds ordersData)
  ∧ ∀ x, x ∈ uniqueStoreIds ordersData ↔ x ∈ Order.storeId <$> ordersData.
Proof.
  unfold uniqueStoreIds.
  assert (H : ∀ (l seen : list string), NoDup seen →
            NoDup (foldl (λ seen x, if decide (x ∈ seen) then seen else seen ++ [x]) seen l)
            ∧ ∀ x, x ∈ foldl (λ seen x, if decide (x ∈ seen) then seen else seen ++ [x])
                         seen l
                   ↔ x ∈ seen ∨ x ∈ l).
  { induction l as [|y l IH]; intros seen Hnd; cbn [foldl].
    - split; [exact Hnd|]. intros x. rewrite elem_of_nil. tauto.
    - destruct (decide (y ∈ seen)) as [Hy|Hy].
      + destruct (IH seen Hnd) as [H1 H2]. split; [exact H1|].
        intros x. rewrite H2, elem_of_cons. split; [tauto|].
        intros [Hx|[->|Hx]]; tauto.
      + destruct (IH (seen ++ [y])) as [H1 H2].
        { apply NoDup_app. split; [exact Hnd|]. split; [|apply NoDup_singleton].
          intros x Hx Hx'. apply list_elem_of_singleton in Hx' as ->. exact (Hy Hx). }
        split; [exact H1|]. intros x.
        rewrite H2, elem_of_app, list_elem_of_singleton, elem_of_cons. tauto. }
  destruct (H (Order.storeId <$> ordersData) [] (NoDup_nil_2)) as [H1 H2].
  split; [exact H1|]. intros x. rewrite H2, elem_of_nil. tauto.
Qed.

Lemma storeLoop_lookups env names storeIds s :
  getDoc_log (foldl (lookupIfMissing env names) s storeIds)
  = getDoc_log s
    ++ filter (λ i, truthy i && negb (hasStoreName names i) = true) storeIds.
Proof.
  revert s. induction storeIds as [|i l IH]; intros s; cbn [foldl].
  - rewrite filter_nil, app_nil_r. reflexivity.
  - rewrite IH, filter_cons. unfold lookupIfMissing.
    destruct (truthy i && negb (hasStoreName names i)) eqn:Hg.
    + rewrite decide_True by reflexivity.
      unfold fetchStoreName. destruct (getDoc_store env i); cbn [snd]; simpl;
        rewrite <- app_assoc; reflexivity.
    + rewrite decide_False by discriminate. reflexivity.
Qed.

(** X15: a cycle of [fetchOrders] whose callback was built with [loading]
    true (the one on mount) looks up every store at most once: its [getDoc]
    calls are, without repetition, the non-empty store ids of the fetched
    orders under which the [storeNames] closed over holds nothing truthy. *)
Theorem mount_cycle_looks_up_each_store_once (names : gmap string string)
    (env : PollEnv) (s : State) (ordersData : list Order.t) :
  getDocs_orders env = Some ordersData →
  ∃ l, getDoc_log (fetchOrders_in true names env s) = getDoc_log s ++ l
       ∧ NoDup l
       ∧ ∀ x, x ∈ l ↔ x ≠ "" ∧ hasStoreName names x = false
                       ∧ ∃ o, o ∈ ordersData ∧ Order.storeId o = x.
Proof.
  intros Hget.
  exists (filter (λ i, truthy i && negb (hasStoreName names i) = true)
            (uniqueStoreIds ordersData)).
  destruct (uniqueStoreIds_spec ordersData) as [Hnd Hel].
  split; [|split].
  - unfold fetchOrders_in. rewrite Hget. cbn [foldl]. simpl.
    apply storeLoop_lookups.
  - apply NoDup_filter. exact Hnd.
  - intros x. rewrite list_elem_of_filter, Hel, list_elem_of_fmap.
    rewrite andb_true_iff, negb_true_iff. unfold truthy. rewrite bool_decide_eq_true.
    split.
    + intros [[Hx Hn] (o & -> & Ho)]. split; [exact Hx|]. split; [exact Hn|].
      exists o. split; [exact Ho|reflexivity].
    + intros (Hx & Hn & o & Ho & <-). split; [split; assumption|].
      exists o. split; [reflexivity|exact Ho].
Qed.

Lemma mount_cycle_looks_up_each_store_once_witness :
  getDocs_orders (fetching [orderA; orderB; orderC]) = Some [orderA; orderB; orderC]
  ∧ ∃ l, getDoc_log (fetchOrders (fetching [orderA; orderB; orderC]) (initial ∅ 0))
         = getDoc_log (initial ∅ 0) ++ l
         ∧ NoDup l
         ∧ ∀ x, x ∈ l ↔ x ≠ "" ∧ hasStoreName (storeNames (initial ∅ 0)) x = false
                         ∧ ∃ o, o ∈ [orderA; orderB; orderC] ∧ Order.storeId o = x.
Proof.
  split; [reflexivity|].
  exact (mount_cycle_looks_up_each_store_once (storeNames (initial ∅ 0))
           (fetching [orderA; orderB; orderC]) (initial ∅ 0) [orderA; orderB; orderC]
           eq_refl).
Defined.

(** ** The feed of the inbox *)

Lemma feed_sorted (coll : gmap string Notification.t) :
  StronglySorted recent (merge_sort recent (map_to_list coll)).
Proof.
  pose proof (StronglySorted_merge_sort recent (map_to_list coll)) as H. exact H.
Qed.

(** While the collection holds at most 50 documents the feed has them all. *)
Lemma feed_complete (coll : gmap string Notification.t) :
  (size coll ≤ 50)%nat → listNotifications coll ≡ₚ map_to_list coll.
Proof.
  intros Hsz. unfold listNotifications. rewrite take_ge.
  - apply merge_sort_Permutation.
  - rewrite merge_sort_Permutation, length_map_to_list. exact Hsz.
Qed.

Lemma feed_complete_unread (coll : gmap string Notification.t) :
  (size coll ≤ 50)%nat → unreadCount (listNotifications coll) = size (filter unread coll).
Proof.
  intros Hsz. unfold unreadCount.
  rewrite (feed_complete coll Hsz). symmetry. apply size_filter_to_list.
Qed.

(** X16: the feed that the inbox listens to holds the 50 most recent
    documents of the collection, or all of them when there are fewer: it is
    ordered most recent first, every entry is a document of the collection
    under its own id, no document appears twice, and no document left out
    is more recent than one that is shown. *)
Theorem feed_is_the_fifty_most_recent (coll : gmap string Notification.t) :
  let feed := listNotifications coll in
  StronglySorted recent feed
  ∧ length feed = (50 `min` size coll)%nat
  ∧ NoDup feed.*1
  ∧ (∀ id n, (id, n) ∈ feed → coll !! id = Some n)
  ∧ (∀ shown id n, shown ∈ feed → coll !! id = Some n → ((id, n) ∉ feed) →
       Notification.createdAt n ≤ Notification.createdAt shown.2).
Proof.
  cbv zeta. unfold listNotifications.
  set (sorted := merge_sort recent (map_to_list coll)).
  assert (Hperm : sorted ≡ₚ map_to_list coll) by apply merge_sort_Permutation.
  pose proof (feed_sorted coll) as Hsorted. fold sorted in Hsorted.
  rewrite <- (take_drop 50 sorted) in Hsorted.
  apply StronglySorted_app in Hsorted as (Hcross & Htake & _).
  split; [exact Htake|]. split; [|split; [|split]].
  - rewrite length_take, Hperm, length_map_to_list. reflexivity.
  - rewrite fmap_take. eapply sublist_NoDup; [|apply sublist_take].
    rewrite Hperm. apply NoDup_fst_map_to_list.
  - intros id n Hin. apply elem_of_map_to_list. rewrite <- Hperm.
    exact (subseteq_take 50 sorted _ Hin).
  - intros shown id n Hshown Hn Hout.
    apply elem_of_map_to_list in Hn. rewrite <- Hperm in Hn.
    rewrite <- (take_drop 50 sorted) in Hn. apply elem_of_app in Hn as [Hn|Hn];
      [contradiction|].
    exact (Hcross shown (id, n) Hshown Hn).
Qed.

Lemma feed_is_the_fifty_most_recent_witness :
  ("50", backlogRecord 50) ∈ listNotifications backlog
  ∧ backlog !! "0" = Some (backlogRecord 0)
  ∧ (("0", backlogRecord 0) ∉ listNotifications backlog)
  ∧ Notification.createdAt (backlogRecord 0)
    ≤ Notification.createdAt (("50", backlogRecord 50)).2.
Proof.
  assert (H1 : ("50", backlogRecord 50) ∈ listNotifications backlog)
    by (apply (list_elem_of_lookup_2 _ 0%nat); vm_compute; reflexivity).
  assert (H2 : backlog !! "0" = Some (backlogRecord 0)) by (vm_compute; reflexivity).
  assert (H3 : ("0", backlogRecord 0) ∉ listNotifications backlog).
  { intros Hin. apply (list_elem_of_fmap_2 fst) in Hin. revert Hin.
    apply (bool_decide_unpack _). vm_compute. exact I. }
  repeat (split; [assumption|]).
  pose proof (feed_is_the_fifty_most_recent backlog) as H. cbv zeta in H.
  destruct H as (_ & _ & _ & _ & Hrest).
  exact (Hrest ("50", backlogRecord 50) "0" (backlogRecord 0) H1 H2 H3).
Defined.

(** X17: while the collection holds at most 50 documents the feed shows
    every one of them, and the count of the inbox is the number of unread
    documents of the collection. *)
Theorem unread_count_exact_up_to_fifty (coll : gmap string Notification.t) :
  (size coll ≤ 50)%nat →
  unreadCount (listNotifications coll) = size (filter unread coll)
  ∧ ∀ id n, (id, n) ∈ listNotifications coll ↔ coll !! id = Some n.
Proof.
  intros Hsz. split; [apply feed_complete_unread; exact Hsz|].
  intros id n. rewrite (feed_complete coll Hsz). apply elem_of_map_to_list.
Qed.

Lemma unread_count_exact_up_to_fifty_witness :
  (size (notifications (runLoad secondFetchAddsB (initial ∅ 0))) ≤ 50)%nat
  ∧ unreadCount (listNotifications (notifications (runLoad secondFetchAddsB (initial ∅ 0))))
    = size (filter unread (notifications (runLoad secondFetchAddsB (initial ∅ 0)))).
Proof.
  assert (H : (size (notifications (runLoad secondFetchAddsB (initial ∅ 0))) ≤ 50)%nat)
    by (apply Nat.leb_le; vm_compute; reflexivity).
  split; [exact H|].
  exact (proj1 (unread_count_exact_up_to_fifty _ H)).
Defined.

(** X18: a click in the inbox never creates or deletes a document and never
    touches a field other than [read]: whatever record is clicked (listed,
    stale or gone) and whether or not the write succeeds, the collection
    keeps its ids, every document is what it was or that with [read] set,
    and the number of unread documents does not grow and falls by one at
    most. *)
Theorem click_only_sets_read (ok : bool) (notification : string * Notification.t)
    (coll : gmap string Notification.t) :
  let coll' := handleNotificationClick ok notification coll in
  dom coll' = dom coll
  ∧ (∀ id n, coll !! id = Some n →
       coll' !! id = Some n ∨ (id = notification.1 ∧ coll' !! id = Some (setRead n)))
  ∧ (size (filter unread coll) - 1 ≤ size (filter unread coll')
     ≤ size (filter unread coll))%nat.
Proof.
  cbv zeta.
  assert (Hsame : dom coll = dom coll
                  ∧ (∀ id n, coll !! id = Some n →
                       coll !! id = Some n
                       ∨ (id = notification.1 ∧ coll !! id = Some (setRead n)))
                  ∧ (size (filter unread coll) - 1 ≤ size (filter unread coll)
                     ≤ size (filter unread coll))%nat).
  { split; [reflexivity|]. split; [intros id n Hn; left; exact Hn|lia]. }
  unfold handleNotificationClick, markAsRead, updateDoc_read.
  destruct (Notification.read notification.2); [exact Hsame|].
  destruct ok; [|exact Hsame].
  destruct (coll !! notification.1) as [m|] eqn:Hm; cbn [default from_option];
    unfold Datatypes.id; [|exact Hsame].
  split; [|split].
  - apply dom_insert_lookup_L. rewrite Hm. eexists; reflexivity.
  - intros id n Hn. destruct (decide (id = notification.1)) as [->|Hne].
    + right. split; [reflexivity|]. rewrite lookup_insert_eq. congruence.
    + left. rewrite lookup_insert_ne by congruence. exact Hn.
  - rewrite (unread_after_setRead coll _ m Hm). destruct (Notification.read m); lia.
Qed.

Lemma click_only_sets_read_witness :
  backlog !! "0" = Some (backlogRecord 0)
  ∧ (handleNotificationClick true ("0", backlogRecord 0) backlog !! "0"
     = Some (backlogRecord 0)
     ∨ ("0" = ("0", backlogRecord 0).1
        ∧ handleNotificationClick true ("0", backlogRecord 0) backlog !! "0"
          = Some (setRead (backlogRecord 0)))).
Proof.
  assert (H1 : backlog !! "0" = Some (backlogRecord 0)) by (vm_compute; reflexivity).
  split; [exact H1|].
  pose proof (click_only_sets_read true ("0", backlogRecord 0) backlog) as H.
  cbv zeta in H. destruct H as (_ & Hdocs & _).
  exact (Hdocs "0" (backlogRecord 0) H1).
Defined.

(** ** From the order screen to the inbox *)

Lemma addDocs_unread env l (coll : gmap string Notification.t) :
  map_Forall (λ _ n, Notification.read n = false) coll →
  Forall (λ n, Notification.read n = false) l →
  map_Forall (λ _ n, Notification.read n = false) (addDocs env l coll).
Proof.
  unfold addDocs. intros Hc Hl.
  assert (Hf : Forall (λ n, Notification.read n = false)
                 (filter (λ n, addDoc_ok env n = true) l))
    by (apply Forall_filter_keep; exact Hl).
  revert coll Hc. induction Hf as [|n k Hn _ IH]; intros coll Hc; cbn [foldl];
    [exact Hc|].
  apply IH. unfold addDoc. apply map_Forall_insert_2; assumption.
Qed.

Lemma move_unread m s :
  map_Forall (λ _ n, Notification.read n = false) (notifications s) →
  map_Forall (λ _ n, Notification.read n = false) (notifications (move m s)).
Proof.
  intros H. destruct (move_writes m s) as (env & l & _ & -> & Hl & _).
  apply addDocs_unread; [exact H|].
  eapply Forall_impl; [exact Hl|]. intros n Hn. apply Hn.
Qed.

(** X19: the order screen and the inbox agree.  Over a collection in which
    nothing is read, after any run of either revision and as long as the
    collection holds at most 50 documents, the count of the inbox is the
    number of documents of the collection: every record the order screen
    has persisted is counted as new. *)
Theorem inbox_counts_every_persisted_record (evs : list Event) (s : State) :
  map_Forall (λ _ n, Notification.read n = false) (notifications s) →
  ((size (notifications (runLoad evs s)) ≤ 50)%nat →
   unreadCount (listNotifications (notifications (runLoad evs s)))
   = size (notifications (runLoad evs s)))
  ∧ ((size (notifications (runFetch evs s)) ≤ 50)%nat →
     unreadCount (listNotifications (notifications (runFetch evs s)))
     = size (notifications (runFetch evs s))).
Proof.
  intros H0.
  assert (Hcount : ∀ coll : gmap string Notification.t,
            map_Forall (λ _ n, Notification.read n = false) coll →
            (size coll ≤ 50)%nat → unreadCount (listNotifications coll) = size coll).
  { intros coll Hall Hsz. rewrite (feed_complete_unread coll Hsz). f_equal.
    apply map_filter_id. intros i n Hn. exact (Hall i n Hn). }
  split; intros Hsz; apply Hcount; try exact Hsz.
  - apply (runLoad_invariant
             (λ s, map_Forall (λ _ n, Notification.read n = false) (notifications s)));
      [|exact H0].
    intros m s' _. apply move_unread.
  - apply (runFetch_invariant
             (λ s, map_Forall (λ _ n, Notification.read n = false) (notifications s)));
      [|exact H0].
    intros m s' _. apply move_unread.
Qed.

Lemma inbox_counts_every_persisted_record_witness :
  map_Forall (λ _ n, Notification.read n = false) (notifications (initial ∅ 0))
  ∧ (size (notifications (runLoad secondFetchAddsB (initial ∅ 0))) ≤ 50)%nat
  ∧ unreadCount (listNotifications (notifications (runLoad secondFetchAddsB (initial ∅ 0))))
    = size (notifications (runLoad secondFetchAddsB (initial ∅ 0))).
Proof.
  assert (H1 : map_Forall (λ _ n, Notification.read n = false)
                 (notifications (initial ∅ 0))) by apply map_Forall_empty.
  assert (H2 : (size (notifications (runLoad secondFetchAddsB (initial ∅ 0))) ≤ 50)%nat)
    by (apply Nat.leb_le; vm_compute; reflexivity).
  split; [exact H1|]. split; [exact H2|].
  exact (proj1 (inbox_counts_every_persisted_record secondFetchAddsB (initial ∅ 0) H1) H2).
Defined.

(** ** Writes to the orders *)

Lemma move_updateDoc_log m s :
  updateDoc_log (move m s) = updateDoc_log s ++ moveWrite m.
Proof.
  destruct m as [t|due|entry|env order ty msg|env|env]; cbn [move moveWrite];
    rewrite ?app_nil_r; try reflexivity.
  - apply elapse_frame.
  - apply saveNotification_frame.
  - destruct (getDocs_orders env) as [L|] eqn:Hget.
    + apply (loadOrders_fetched env s L Hget).
    + rewrite (loadOrders_failed env s Hget). reflexivity.
  - destruct (getDocs_orders env) as [L|] eqn:Hget.
    + apply (fetchOrders_fetched env s L Hget).
    + unfold fetchOrders, fetchOrders_in. rewrite Hget. reflexivity.
Qed.

Lemma moves_updateDoc_log ms s :
  updateDoc_log (moves ms s) = updateDoc_log s ++ (ms ≫= moveWrite).
Proof.
  unfold moves. revert s. induction ms as [|m ms IH]; intros s; cbn [foldl flip].
  - rewrite app_nil_r. reflexivity.
  - rewrite IH, move_updateDoc_log, <- app_assoc. reflexivity.
Qed.

Lemma movesLoad_writes e s : movesLoad e s ≫= moveWrite = orderWrite e.
Proof.
  destruct e as [dt|env|env|env|[] env i v|[] env i v]; try reflexivity.
  - unfold movesLoad, tickMoves. destruct (intervalDue s); reflexivity.
  - unfold movesLoad, saveMoves. destruct (find _ (orders s)); reflexivity.
  - unfold movesLoad, saveMoves. destruct (find _ (orders s)); reflexivity.
Qed.

Lemma movesFetch_writes e s : movesFetch e s ≫= moveWrite = orderWrite e.
Proof.
  destruct e as [dt|env|env|env|[] env i v|[] env i v]; try reflexivity.
  unfold movesFetch, tickMoves. destruct (intervalDue s); reflexivity.
Qed.

(** X20: orders are written by the admin only.  Over any run of either
    revision the [updateDoc] calls on 'orders' are, in order, one per status
    or payment action whose write succeeds, each setting the one field the
    action names to the value chosen; polls, timers and the effect write no
    order. *)
Theorem orders_written_by_admin_actions_only (evs : list Event) (s : State) :
  updateDoc_log (runLoad evs s) = updateDoc_log s ++ (evs ≫= orderWrite)
  ∧ updateDoc_log (runFetch evs s) = updateDoc_log s ++ (evs ≫= orderWrite).
Proof.
  split.
  - unfold runLoad. revert s. induction evs as [|e evs IH]; intros s; cbn [foldl flip].
    + rewrite app_nil_r. reflexivity.
    + rewrite IH, stepLoad_moves, moves_updateDoc_log, movesLoad_writes, <- app_assoc.
      reflexivity.
  - unfold runFetch. revert s. induction evs as [|e evs IH]; intros s; cbn [foldl flip].
    + rewrite app_nil_r. reflexivity.
    + rewrite IH, stepFetch_moves, moves_updateDoc_log, movesFetch_writes, <- app_assoc.
      reflexivity.
Qed.

(** ** A failed cycle and the effect *)



(** ** A new order whose store has no name yet *)

Lemma appearances_present O prev Ls :
  O ∈ prev → Forall (λ L, O ∈ ids L) Ls → appearances O prev Ls = 0%nat.
Proof.
  intros Hin Hall. revert prev Hin.
  induction Hall as [|L Ls HL _ IH]; intros prev Hin; cbn [appearances]; [reflexivity|].
  rewrite (IH (ids L) HL). rewrite decide_False by (intros [_ Hout]; exact (Hout Hin)).
  reflexivity.
Qed.

Lemma runFetch_keeps_documents evs s :
  notifications s ⊆ notifications (runFetch evs s).
Proof.
  apply (runFetch_invariant (λ s', notifications s ⊆ notifications s')); [|reflexivity].
  intros m s' _ H. etrans; [exact H|]. apply move_grows.
Qed.

(** C2 at its failing inputs ([fetchOrders] revision).  An order that a
    cycle past the first fetch observes for the first time, in a fetch that
    lists every order once and in a world whose writes succeed, gets
    exactly one [new_order] notification from [loadOrders].  From
    [fetchOrders] it gets none when nothing truthy is under its store id in
    the [storeNames] that the callback closed over: the callback awaits the
    store lookup before it tests the snapshot, which by then holds the
    order; and as long as the order stays in the collection no later cycle
    writes one either. *)
Theorem new_order_lost_while_store_unknown (names : gmap string string)
    (env : PollEnv) (s : State) (ordersData : list Order.t) (o : Order.t)
    (evs : list Event) :
  getDocs_orders env = Some ordersData → NoDup (Order.id <$> ordersData) →
  o ∈ ordersData →
  Order.id o ∉ previousOrdersRef s → (0 < size (previousOrdersRef s))%nat →
  (∀ n, addDoc_ok env n = true) →
  awaitsStore names o →
  Forall (λ L, NoDup (Order.id <$> L) ∧ Order.id o ∈ ids L) (snapshotsFetch evs) →
  let sL := loadOrders_in names env s in
  let sF := fetchOrders_in false names env s in
  persisted new_order (Order.id o) (notifications sL)
  = (persisted new_order (Order.id o) (notifications s) + 1)%nat
  ∧ persisted new_order (Order.id o) (notifications sF)
    = persisted new_order (Order.id o) (notifications s)
  ∧ Order.id o ∈ previousOrdersRef sF
  ∧ persisted new_order (Order.id o) (notifications (runFetch evs sF))
    = persisted new_order (Order.id o) (notifications s).
Proof.
  intros Hget Hnd Hin Hnew Hpast Hok Hw Hlater. cbv zeta.
  assert (Hlisted : Order.id o ∈ ids ordersData).
  { unfold ids. apply elem_of_list_to_set, list_elem_of_fmap.
    exists o. split; [reflexivity|exact Hin]. }
  split; [|].
  { destruct (loadOrders_in_persisted new_order (Order.id o) names env s ordersData Hget)
      as (k & Hk & _ & Heq).
    rewrite Hk, (Heq Hok).
    rewrite decide_True by (split; [reflexivity|split; assumption]).
    rewrite (listed_NoDup _ _ Hnd), decide_True by exact Hlisted. reflexivity. }
  pose proof (fetchOrders_in_fetched false names env s ordersData Hget) as H.
  cbv zeta in H. destruct H as (Hp & _ & _ & _ & _ & _ & _ & _ & Hc & _).
  assert (HF : persisted new_order (Order.id o)
                 (notifications (fetchOrders_in false names env s))
               = persisted new_order (Order.id o) (notifications s)).
  { rewrite Hc, persisted_addDocs.
    rewrite (filter_none (λ n, Notification.type n = new_order
                               ∧ Notification.orderId n = Order.id o)); [simpl; lia|].
    apply Forall_forall. intros n Hn [_ Hid].
    apply list_elem_of_filter in Hn as [_ Hn].
    apply list_elem_of_fmap in Hn as (x & -> & Hx).
    exact (awaiting_not_marked _ _ _ _ _ Hnd Hin Hw Hx Hid). }
  split; [exact HF|]. split; [rewrite Hp; exact Hlisted|].
  apply Nat.le_antisymm.
  - pose proof (runFetch_new_order (Order.id o) evs (fetchOrders_in false names env s))
      as Hle.
    rewrite appearances_present in Hle.
    + rewrite <- HF. etrans; [apply Hle|lia].
      eapply Forall_impl; [exact Hlater|]. intros L HL. apply HL.
    + rewrite Hp. exact Hlisted.
    + eapply Forall_impl; [exact Hlater|]. intros L HL. apply HL.
  - rewrite <- HF. unfold persisted. apply map_subseteq_size, map_filter_subseteq_mono.
    apply runFetch_keeps_documents.
Qed.

Lemma new_order_lost_while_store_unknown_witness :
  getDocs_orders (fetching [orderA; orderD]) = Some [orderA; orderD]
  ∧ NoDup (Order.id <$> [orderA; orderD])
  ∧ orderD ∈ [orderA; orderD]
  ∧ (Order.id orderD ∉ previousOrdersRef listingA_fetch)
  ∧ (0 < size (previousOrdersRef listingA_fetch))%nat
  ∧ (∀ n, addDoc_ok (fetching [orderA; orderD]) n = true)
  ∧ awaitsStore (storeNames listingA_fetch) orderD
  ∧ Forall (λ L, NoDup (Order.id <$> L) ∧ Order.id orderD ∈ ids L)
      (snapshotsFetch [Interval (fetching [orderA; orderD]);
                       Interval (fetching [orderA; orderD])])
  ∧ persisted new_order "D"
      (notifications (loadOrders_in (storeNames listingA_fetch)
                        (fetching [orderA; orderD]) listingA_fetch)) = 1%nat
  ∧ persisted new_order "D"
      (notifications
         (runFetch [Interval (fetching [orderA; orderD]);
                    Interval (fetching [orderA; orderD])]
            (fetchOrders_in false (storeNames listingA_fetch)
               (fetching [orderA; orderD]) listingA_fetch))) = 0%nat.
Proof.
  assert (H1 : getDocs_orders (fetching [orderA; orderD]) = Some [orderA; orderD])
    by reflexivity.
  assert (H2 : NoDup (Order.id <$> [orderA; orderD]))
    by (apply (bool_decide_unpack _); vm_compute; exact I).
  assert (H3 : orderD ∈ [orderA; orderD])
    by (apply elem_of_cons; right; apply list_elem_of_singleton; reflexivity).
  assert (H4 : Order.id orderD ∉ previousOrdersRef listingA_fetch)
    by (apply (bool_decide_unpack _); vm_compute; exact I).
  assert (H5 : (0 < size (previousOrdersRef listingA_fetch))%nat)
    by (apply Nat.ltb_lt; vm_compute; reflexivity).
  assert (H6 : ∀ n, addDoc_ok (fetching [orderA; orderD]) n = true)
    by (intros n; reflexivity).
  assert (H7 : awaitsStore (storeNames listingA_fetch) orderD)
    by (vm_compute; reflexivity).
  assert (H8 : Forall (λ L, NoDup (Order.id <$> L) ∧ Order.id orderD ∈ ids L)
                 (snapshotsFetch [Interval (fetching [orderA; orderD]);
                                  Interval (fetching [orderA; orderD])])).
  { repeat constructor; try (apply (bool_decide_unpack _); vm_compute; exact I). }
  repeat (split; [assumption|]).
  pose proof (new_order_lost_while_store_unknown (storeNames listingA_fetch)
                (fetching [orderA; orderD]) listingA_fetch [orderA; orderD] orderD
                [Interval (fetching [orderA; orderD]); Interval (fetching [orderA; orderD])]
                H1 H2 H3 H4 H5 H6 H7 H8) as H.
  cbv zeta in H. destruct H as (HL & _ & _ & HF).
  split; [exact HL|exact HF].
Defined.
